(** * descriptor-chain: a shallow embedding of the chain classes

    Source files:
    - [src/lib/descriptor-chain-base.abstract.ts]  (class [DescriptorChainBase])
    - [src/lib/descriptor-chain.class.ts]          (the two classes named
      [DescriptorChain]: the stand-alone one and the one extending the base)

    Modelling conventions.
    - A JavaScript [number] used as an index is an integer, [Z].  Fractional
      numbers, [NaN] and the infinities are outside the model.
    - The array indices are the integers from 0 to 2^32 - 2; every other
      integer key names a plain property of the array object.  What [push]
      does on an array that already has the maximal length 2^32 - 1 (it
      throws a [RangeError]) is outside the model.
    - A snapshot (the type parameter [D]) is a JavaScript object: a finite map
      from property names to field values, [gmap string V].
      Object spread copies the own fields; snapshots are compared by their
      fields, not by reference.
    - [undefined] read out of an array is [None].
    - A method that returns [this] is a function from the receiver's state to
      its new state; [load], which calls the descriptor source and may throw,
      lives in a state-and-exception monad. *)

From Stdlib Require Import ZArith List Lia.
From stdpp Require Import base option list gmap strings.

Local Open Scope Z_scope.

(** ** JavaScript arrays

    An array is its indexed slots, where a slot may be a hole, together with
    the integer-keyed properties that are not array indices (the negative
    keys and the keys from 2^32 - 1 on): [a[-1] = x] and [a[4294967295] = x]
    create such a property and leave [length] alone. *)

Module JsArray.

Record t (D : Type) : Type := mk {
  items : list (option D);
  props : gmap Z D
}.
Arguments mk {D} _ _.
Arguments items {D} _.
Arguments props {D} _.

Record iterator : Type := mkIterator {
  nextIndex : nat;
  exhausted : bool
}.

Section Ops.
Context {D : Type}.
Implicit Types (a : t D) (d : D) (i : Z).

(** [new Array<D>()] *)
Definition empty : t D := mk [] ∅.

(** [a.length] *)
Definition length a : Z := Z.of_nat (List.length (items a)).

(** An array has at most [maxLength] slots: the array indices are the
    integers [i] with [0 <= i < maxLength]. *)
Definition maxLength : Z := 4294967295.

(** [a[i]] as an r-value: the slot [i] below [length]; [undefined] at any
    other array index; the property [i] at a key that is no array index.
    (For an array within the maximal length the first test implies the
    second.) *)
Definition get a i : option D :=
  if decide (0 <= i < length a) then default None (items a !! Z.to_nat i)
  else if decide (0 <= i < maxLength) then None
  else props a !! i.

(** [a[i] = d]: below [length] the slot is overwritten; at any other array
    index the array grows to length [i + 1], with holes in between; at a key
    that is no array index a property is written and [length] is kept. *)
Definition put a i d : t D :=
  if decide (0 <= i < length a) then
    mk (<[Z.to_nat i := Some d]> (items a)) (props a)
  else if decide (0 <= i < maxLength) then
    mk (items a
          ++ replicate (Z.to_nat i - List.length (items a)) None ++ [Some d])
       (props a)
  else mk (items a) (<[i := d]> (props a)).

(** [a.push(d)] *)
Definition push a d : t D := mk (items a ++ [Some d]) (props a).

(** [a.length = 0] *)
Definition truncate a : t D := mk [] (props a).

(** [a.splice(start, deleteCount)]: the removed slots and the array left. *)
Definition actualStart a (start : Z) : nat :=
  if decide (start < 0) then Z.to_nat (Z.max (length a + start) 0)
  else Z.to_nat (Z.min start (length a)).

Definition actualDeleteCount a (start deleteCount : Z) : nat :=
  Z.to_nat (Z.min (Z.max deleteCount 0)
                  (length a - Z.of_nat (actualStart a start))).

Definition splice a (start deleteCount : Z) : list (option D) * t D :=
  let s := actualStart a start in
  let k := actualDeleteCount a start deleteCount in
  (take k (drop s (items a)),
   mk (take s (items a) ++ drop (s + k) (items a)) (props a)).

(** Array iterators ([a.values()], [a.entries()]).  An iterator keeps a
    reference to the array, so every step reads the array as it is then. *)
Definition start : iterator := mkIterator 0 false.

Definition step {R : Type} (kind : Z -> option D -> R) a (it : iterator)
  : option R * iterator :=
  if exhausted it then (None, it)
  else if decide (List.length (items a) <= nextIndex it)%nat
       then (None, mkIterator (nextIndex it) true)
       else (Some (kind (Z.of_nat (nextIndex it))
                        (default None (items a !! nextIndex it))),
             mkIterator (S (nextIndex it)) false).

Definition valueKind (_ : Z) (v : option D) : option D := v.
Definition entryKind (i : Z) (v : option D) : Z * option D := (i, v).

End Ops.

(** Calling [next()] up to [fuel] times, stopping at the first [done]
    result: the values produced and the iterator left. *)
Fixpoint drain {R : Type} (next : iterator -> option R * iterator)
    (fuel : nat) (it : iterator) : list R * iterator :=
  match fuel with
  | O => ([], it)
  | S fuel' =>
      match next it with
      | (None, it') => ([], it')
      | (Some r, it') =>
          let '(rs, it'') := drain next fuel' it' in (r :: rs, it'')
      end
  end.

End JsArray.

(** ** Snapshots, errors and the descriptor source *)

(** A snapshot is an object; [V] is the type of its field values. *)
Abbreviation Snapshot V := (gmap string V) (only parsing).

(** [{...a, ...b}]: the own fields of [a], then those of [b] on top of them.
    Spreading [undefined] contributes nothing. *)
Definition spread {V : Type} (target : Snapshot V) (src : option (Snapshot V))
  : Snapshot V :=
  match src with
  | Some s => s ∪ target
  | None => target
  end.

(** [new Error(message)] *)
Record Error : Type := mkError { message : string }.

Inductive Completion (A : Type) : Type :=
| Normal (value : A)
| Throw (e : Error).
Arguments Normal {A} _.
Arguments Throw {A} _.

(** The descriptor source [Descriptor.fromProperty] is imported from another
    package.  It is taken as an oracle: its answer to the [n]-th query made
    since the world began may be anything, and the queries are recorded. *)
Record World (O V : Type) : Type := mkWorld {
  source : nat -> O -> string -> option (Snapshot V);
  queries : list (O * string)
}.
Arguments mkWorld {O V} _ _.
Arguments source {O V} _ _ _ _.
Arguments queries {O V} _.

(** A method body: it runs on the receiver's state [S] and on the world. *)
Definition M (O V S A : Type) : Type :=
  S -> World O V -> Completion A * S * World O V.

Section Monad.
Context {O V S : Type}.

Definition ret {A} (x : A) : M O V S A := fun s w => (Normal x, s, w).

Definition bind {A B} (m : M O V S A) (f : A -> M O V S B) : M O V S B :=
  fun s w =>
    match m s w with
    | (Normal x, s', w') => f x s' w'
    | (Throw e, s', w') => (Throw e, s', w')
    end.

Definition throw {A} (e : Error) : M O V S A := fun s w => (Throw e, s, w).

(** [this] *)
Definition this : M O V S S := fun s w => (Normal s, s, w).

(** a call of a method that cannot throw and returns [this] *)
Definition call (f : S -> S) : M O V S S :=
  fun s w => (Normal (f s), f s, w).

(** [Descriptor.fromProperty(object, key)] *)
Definition fromProperty (object : O) (key : string)
  : M O V S (option (Snapshot V)) :=
  fun s w =>
    (Normal (source w (List.length (queries w)) object key), s,
     mkWorld (source w) (queries w ++ [(object, key)])).
End Monad.

Notation "'let*' x ':=' m 'in' k" := (bind m (fun x => k))
  (at level 10, x name, m at level 100, k at level 200, only parsing).

(** ** [DescriptorChainBase], with the [add] of the class extending it *)

Module DescriptorChainBase.

Record Chain (O V : Type) : Type := mk {
  active : bool;
  descriptor : O -> string -> Snapshot V -> Snapshot V;
  enabled : bool;
  currentIndex : Z;
  data : JsArray.t (Snapshot V);
  key : string;
  object : O
}.
Arguments mk {O V} _ _ _ _ _ _ _.
Arguments active {O V} _.
Arguments descriptor {O V} _ _ _ _.
Arguments enabled {O V} _.
Arguments currentIndex {O V} _.
Arguments data {O V} _.
Arguments key {O V} _.
Arguments object {O V} _.

Section Methods.
Context {O V : Type}.
Implicit Types (c : Chain O V) (index : Z) (value : Snapshot V).

(** the constructor and the field initialisers *)
Definition new (object : O) (key : string)
    (descriptor : O -> string -> Snapshot V -> Snapshot V) : Chain O V :=
  mk true descriptor true 0 JsArray.empty key object.

(** assignment to, or mutation of, the array held in [#data] *)
Definition withData c (a : JsArray.t (Snapshot V)) : Chain O V :=
  mk (active c) (descriptor c) (enabled c) (currentIndex c) a (key c) (object c).

Definition current c : option (Snapshot V) :=
  JsArray.get (data c) (currentIndex c).

Definition lastIndex c : Z := JsArray.length (data c) - 1.

(** [typeof this.currentIndex === 'number'] holds of every value the field
    can have, so the [undefined] branch is never taken. *)
Definition nextIndex c : option Z := Some (currentIndex c + 1).

Definition next c : option (Snapshot V) :=
  match nextIndex c with
  | Some n => JsArray.get (data c) n
  | None => None
  end.



Definition size c : Z := JsArray.length (data c).

Definition activate c : Chain O V :=
  mk true (descriptor c) (enabled c) (currentIndex c) (data c) (key c) (object c).

Definition clear c : Chain O V := withData c (JsArray.truncate (data c)).

Definition delete index c : Chain O V :=
  withData c (snd (JsArray.splice (data c) index 1)).

Definition deactivate c : Chain O V :=
  mk false (descriptor c) (enabled c) (currentIndex c) (data c) (key c) (object c).

Definition disable c : Chain O V :=
  mk (active c) (descriptor c) false (currentIndex c) (data c) (key c) (object c).

Definition enable c : Chain O V :=
  mk (active c) (descriptor c) true (currentIndex c) (data c) (key c) (object c).

(** [entries()] and [values()] return a new iterator over [#data]; the
    [next()] of each reads the chain's array at the time of the call. *)
Definition entries c : JsArray.iterator := JsArray.start.

Definition entriesNext c (it : JsArray.iterator) :=
  JsArray.step JsArray.entryKind (data c) it.

Definition first c : option (Snapshot V) := JsArray.get (data c) 0.

Definition get index c : option (Snapshot V) := JsArray.get (data c) index.

Definition has index c : bool :=
  bool_decide (0 <= index) && bool_decide (index < JsArray.length (data c)).

Definition last c : option (Snapshot V) := JsArray.get (data c) (lastIndex c).

(** [add] is abstract in the base; this is the one of the extending class. *)
Definition add (descriptor : Snapshot V) c : Chain O V :=
  withData c (JsArray.push (data c) descriptor).

Definition load : M O V (Chain O V) (Chain O V) :=
  let* c := this in
  let* descriptor := fromProperty (object c) (key c) in
  match descriptor with
  | Some d => call (add d)
  | None => throw (mkError ("Descriptor not found for key: " ++ key c))
  end.

Definition set index value c : Chain O V :=
  withData c (JsArray.put (data c) index value).

Definition setCurrentIndex index c : Chain O V :=
  mk (active c) (descriptor c) (enabled c) index (data c) (key c) (object c).

Definition update index value c : Chain O V :=
  withData c
    (JsArray.put (data c) index
       (spread (spread ∅ (JsArray.get (data c) index)) (Some value))).

Definition values c : JsArray.iterator := JsArray.start.

Definition valuesNext c (it : JsArray.iterator) :=
  JsArray.step JsArray.valueKind (data c) it.

(** A method call on a chain, as a caller makes it. *)
Inductive Call : Type :=
| CallActivate
| CallAdd (descriptor : Snapshot V)
| CallClear
| CallDelete (index : Z)
| CallDeactivate
| CallDisable
| CallEnable
| CallLoad
| CallSet (index : Z) (value : Snapshot V)
| CallSetCurrentIndex (index : Z)
| CallUpdate (index : Z) (value : Snapshot V).

Definition invoke (m : Call) : M O V (Chain O V) (Chain O V) :=
  match m with
  | CallActivate => call activate
  | CallAdd d => call (add d)
  | CallClear => call clear
  | CallDelete i => call (delete i)
  | CallDeactivate => call deactivate
  | CallDisable => call disable
  | CallEnable => call enable
  | CallLoad => load
  | CallSet i v => call (set i v)
  | CallSetCurrentIndex i => call (setCurrentIndex i)
  | CallUpdate i v => call (update i v)
  end.
End Methods.

End DescriptorChainBase.

(** ** The stand-alone [DescriptorChain] *)

Module DescriptorChain.

Record Chain (O V : Type) : Type := mk {
  currentIndex : Z;
  data : JsArray.t (Snapshot V);
  key : string;
  object : O
}.
Arguments mk {O V} _ _ _ _.
Arguments currentIndex {O V} _.
Arguments data {O V} _.
Arguments key {O V} _.
Arguments object {O V} _.

Section Methods.
Context {O V : Type}.
Implicit Types (c : Chain O V) (index : Z) (value : Snapshot V).

Definition new (object : O) (key : string) : Chain O V :=
  mk 0 JsArray.empty key object.

Definition withData c (a : JsArray.t (Snapshot V)) : Chain O V :=
  mk (currentIndex c) a (key c) (object c).

Definition active c : bool := false.

Definition current c : option (Snapshot V) :=
  JsArray.get (data c) (currentIndex c).

Definition enabled c : bool := false.

Definition lastIndex c : Z := JsArray.length (data c) - 1.

Definition size c : Z := JsArray.length (data c).

Definition add (descriptor : Snapshot V) c : Chain O V :=
  withData c (JsArray.push (data c) descriptor).

Definition clear c : Chain O V := withData c (JsArray.truncate (data c)).

Definition delete index c : Chain O V :=
  withData c (snd (JsArray.splice (data c) index 1)).

Definition entries c : JsArray.iterator := JsArray.start.

Definition entriesNext c (it : JsArray.iterator) :=
  JsArray.step JsArray.entryKind (data c) it.

Definition first c : option (Snapshot V) := JsArray.get (data c) 0.

Definition get index c : option (Snapshot V) := JsArray.get (data c) index.

Definition has index c : bool :=
  bool_decide (0 <= index) && bool_decide (index < JsArray.length (data c)).

Definition last c : option (Snapshot V) := JsArray.get (data c) (lastIndex c).

Definition load : M O V (Chain O V) (Chain O V) :=
  let* c := this in
  let* descriptor := fromProperty (object c) (key c) in
  match descriptor with
  | Some d => call (add d)
  | None => throw (mkError ("Descriptor not found for key: " ++ key c))
  end.

Definition set index value c : Chain O V :=
  withData c (JsArray.put (data c) index value).

Definition setCurrentIndex index c : Chain O V :=
  mk index (data c) (key c) (object c).

Definition update index value c : Chain O V :=
  withData c
    (JsArray.put (data c) index
       (spread (spread ∅ (JsArray.get (data c) index)) (Some value))).

Definition values c : JsArray.iterator := JsArray.start.

Definition valuesNext c (it : JsArray.iterator) :=
  JsArray.step JsArray.valueKind (data c) it.

Inductive Call : Type :=
| CallAdd (descriptor : Snapshot V)
| CallClear
| CallDelete (index : Z)
| CallLoad
| CallSet (index : Z) (value : Snapshot V)
| CallSetCurrentIndex (index : Z)
| CallUpdate (index : Z) (value : Snapshot V).

Definition invoke (m : Call) : M O V (Chain O V) (Chain O V) :=
  match m with
  | CallAdd d => call (add d)
  | CallClear => call clear
  | CallDelete i => call (delete i)
  | CallLoad => load
  | CallSet i v => call (set i v)
  | CallSetCurrentIndex i => call (setCurrentIndex i)
  | CallUpdate i v => call (update i v)
  end.
End Methods.

End DescriptorChain.

(** ** Histories of calls

    A caller makes one call after another, catching what [load] throws.  The
    tally counts the [add] and [load] calls that completed normally and the
    [delete] calls whose [splice] removed a slot. *)

Record Tally : Type := mkTally { appended : nat; removed : nat }.

Definition completed {A : Type} (r : Completion A) : bool :=
  match r with Normal _ => true | Throw _ => false end.

Definition bump (b : bool) (n : nat) : nat := if b then S n else n.

Definition removes {D : Type} (a : JsArray.t D) (index : Z) : bool :=
  match fst (JsArray.splice a index 1) with
  | [] => false
  | _ :: _ => true
  end.

Module BaseHistory.
Import DescriptorChainBase.
Section Run.
Context {O V : Type}.

Definition addLoadDelete (m : @Call V) : bool :=
  match m with
  | CallAdd _ | CallLoad | CallDelete _ => true
  | _ => false
  end.

Definition tally (m : @Call V) (c : Chain O V) (r : Completion (Chain O V))
    (t : Tally) : Tally :=
  match m with
  | CallAdd _ | CallLoad => mkTally (bump (completed r) (appended t)) (removed t)
  | CallDelete i => mkTally (appended t) (bump (removes (data c) i) (removed t))
  | _ => t
  end.

Fixpoint run (ms : list (@Call V)) (c : Chain O V) (w : World O V) (t : Tally)
  : Chain O V * World O V * Tally :=
  match ms with
  | [] => (c, w, t)
  | m :: ms' =>
      let '(r, c', w') := invoke m c w in
      run ms' c' w' (tally m c r t)
  end.
End Run.
End BaseHistory.

Module MinimalHistory.
Import DescriptorChain.
Section Run.
Context {O V : Type}.

Definition addLoadDelete (m : @Call V) : bool :=
  match m with
  | CallAdd _ | CallLoad | CallDelete _ => true
  | _ => false
  end.

Definition tally (m : @Call V) (c : Chain O V) (r : Completion (Chain O V))
    (t : Tally) : Tally :=
  match m with
  | CallAdd _ | CallLoad => mkTally (bump (completed r) (appended t)) (removed t)
  | CallDelete i => mkTally (appended t) (bump (removes (data c) i) (removed t))
  | _ => t
  end.

Fixpoint run (ms : list (@Call V)) (c : Chain O V) (w : World O V) (t : Tally)
  : Chain O V * World O V * Tally :=
  match ms with
  | [] => (c, w, t)
  | m :: ms' =>
      let '(r, c', w') := invoke m c w in
      run ms' c' w' (tally m c r t)
  end.
End Run.
End MinimalHistory.

(** ** Names and predicates used by the statements *)

Module Base := DescriptorChainBase.
Module Minimal := DescriptorChain.


(** ** Sample values *)

Module Sample.

Inductive JsVal : Type :=
| JsNumber (n : Z)
| JsBoolean (b : bool)
| JsUndefined.

(** the object [{a: 1}] *)
Definition obj : gmap string JsVal := {[ "a" := JsNumber 1 ]}.

Definition S0 : gmap string JsVal :=
  {[ "value" := JsNumber 1; "writable" := JsBoolean true ]}.
Definition S1 : gmap string JsVal :=
  {[ "value" := JsNumber 2; "writable" := JsBoolean true ]}.
Definition S2 : gmap string JsVal :=
  {[ "value" := JsNumber 3; "writable" := JsBoolean false ]}.

(** a partial snapshot: only [value] is present *)
Definition partial : gmap string JsVal := {[ "value" := JsNumber 7 ]}.

(** a source that reads the data property of the object, when it has one *)
Definition ownProperty (n : nat) (o : gmap string JsVal) (k : string)
  : option (gmap string JsVal) :=
  match o !! k with
  | Some v => Some {[ "value" := v; "writable" := JsBoolean true ]}
  | None => None
  end.

Definition world : World (gmap string JsVal) JsVal := mkWorld ownProperty [].

Definition wrap (o : gmap string JsVal) (k : string) (attributes : gmap string JsVal)
  : gmap string JsVal := attributes.

Definition base0 : DescriptorChainBase.Chain (gmap string JsVal) JsVal :=
  DescriptorChainBase.new obj "a" wrap.

Definition base1 := DescriptorChainBase.add S0 base0.
Definition base2 := DescriptorChainBase.add S1 base1.
Definition base3 := DescriptorChainBase.add S2 base2.

Definition minimal0 : DescriptorChain.Chain (gmap string JsVal) JsVal :=
  DescriptorChain.new obj "a".

Definition minimal1 := DescriptorChain.add S0 minimal0.
Definition minimal2 := DescriptorChain.add S1 minimal1.
Definition minimal3 := DescriptorChain.add S2 minimal2.


(** a source that has a snapshot for the first query only *)
Definition onlyOnce (n : nat) (o : gmap string JsVal) (k : string)
  : option (gmap string JsVal) :=
  match n with
  | O => ownProperty n o k
  | S _ => None
  end.

Definition worldOnce : World (gmap string JsVal) JsVal := mkWorld onlyOnce [].

Definition baseCalls : list (@DescriptorChainBase.Call JsVal) :=
  [ DescriptorChainBase.CallAdd S0; DescriptorChainBase.CallLoad;
    DescriptorChainBase.CallLoad; DescriptorChainBase.CallDelete 5;
    DescriptorChainBase.CallDelete (-1); DescriptorChainBase.CallAdd S1 ].

Definition minimalCalls : list (@DescriptorChain.Call JsVal) :=
  [ DescriptorChain.CallLoad; DescriptorChain.CallLoad;
    DescriptorChain.CallDelete 0; DescriptorChain.CallDelete 0 ].
End Sample.

(** ** Observers used by the further properties *)

(** An array without holes: every slot below [length] holds a value. *)
Definition gapFree {D : Type} (a : JsArray.t D) : Prop :=
  Forall is_Some (JsArray.items a).

Module Replay.
Section Replay.
Context {O V : Type}.

(** What the flags and the cursor are after a history, read off the calls
    that assign them. *)
Definition activeAfter (ms : list (@Base.Call V)) (b : bool) : bool :=
  fold_left (fun b m =>
               match m with
               | Base.CallActivate => true
               | Base.CallDeactivate => false
               | _ => b
               end) ms b.

Definition enabledAfter (ms : list (@Base.Call V)) (b : bool) : bool :=
  fold_left (fun b m =>
               match m with
               | Base.CallEnable => true
               | Base.CallDisable => false
               | _ => b
               end) ms b.

Definition cursorAfter (ms : list (@Base.Call V)) (z : Z) : Z :=
  fold_left (fun z m =>
               match m with
               | Base.CallSetCurrentIndex i => i
               | _ => z
               end) ms z.

Definition isLoad (m : @Base.Call V) : bool :=
  match m with Base.CallLoad => true | _ => false end.

(** the number of [load()] calls in a history *)
Definition loads (ms : list (@Base.Call V)) : nat :=
  List.length (List.filter isLoad ms).

(** every call but the indexed writes [set] and [update] *)
Definition noIndexedWrite (m : @Base.Call V) : bool :=
  match m with
  | Base.CallSet _ _ | Base.CallUpdate _ _ => false
  | _ => true
  end.


(** The state the stand-alone class keeps, out of a base chain's state, and
    the base call that has the name of a call of the stand-alone class. *)
Definition forget (c : Base.Chain O V) : Minimal.Chain O V :=
  Minimal.mk (Base.currentIndex c) (Base.data c) (Base.key c) (Base.object c).

Definition liftCall (m : @Minimal.Call V) : @Base.Call V :=
  match m with
  | Minimal.CallAdd d => Base.CallAdd d
  | Minimal.CallClear => Base.CallClear
  | Minimal.CallDelete i => Base.CallDelete i
  | Minimal.CallLoad => Base.CallLoad
  | Minimal.CallSet i v => Base.CallSet i v
  | Minimal.CallSetCurrentIndex i => Base.CallSetCurrentIndex i
  | Minimal.CallUpdate i v => Base.CallUpdate i v
  end.

End Replay.
End Replay.

(** a completion of a base method, seen from the stand-alone class *)
Definition forgetCompletion {O V : Type}
    (r : Completion (Base.Chain O V)) : Completion (Minimal.Chain O V) :=
  match r with
  | Normal c => Normal (Replay.forget c)
  | Throw e => Throw e
  end.

(** * Facts about arrays *)

Module JsArrayFacts.
Import JsArray.
Section Facts.
Context {D : Type}.
Implicit Types (a : t D) (d : D) (i : Z).

Lemma eta a : mk (items a) (props a) = a.
Proof. by destruct a. Qed.

Lemma length_nonneg a : 0 <= length a.
Proof. unfold length. lia. Qed.

Lemma length_empty : length (@empty D) = 0.
Proof. reflexivity. Qed.

Lemma length_truncate a : length (truncate a) = 0.
Proof. reflexivity. Qed.

Lemma length_push a d : length (push a d) = length a + 1.
Proof. unfold length, push. simpl. rewrite length_app. simpl. lia. Qed.

Lemma get_out_of_range a i :
  length a <= i -> i < maxLength -> get a i = None.
Proof.
  unfold get. intros Hle Hmax.
  destruct (decide (0 <= i < length a)) as [?|_]; [lia|].
  pose proof (length_nonneg a).
  destruct (decide (0 <= i < maxLength)) as [_|?]; [done | lia].
Qed.

(** [splice] with a delete count of one *)
Lemma actualStart_le a i : (actualStart a i <= List.length (items a))%nat.
Proof. unfold actualStart, length. destruct (decide (i < 0)); lia. Qed.

Lemma actualDeleteCount_one a i :
  actualDeleteCount a i 1 =
  if decide (actualStart a i < List.length (items a))%nat then 1%nat else 0%nat.
Proof.
  unfold actualDeleteCount, length. pose proof (actualStart_le a i).
  destruct (decide _); lia.
Qed.

Lemma actualStart_at_end a i :
  actualStart a i = List.length (items a) <-> (length a <= i \/ length a = 0).
Proof. unfold actualStart, length. destruct (decide (i < 0)); lia. Qed.

Lemma splice_one_noop a i :
  length a <= i \/ length a = 0 -> splice a i 1 = ([], a).
Proof.
  intros H. apply actualStart_at_end in H. unfold splice.
  rewrite actualDeleteCount_one, H.
  destruct (decide _) as [Hlt|_]; [lia|].
  rewrite Nat.add_0_r, firstn_all, drop_all, app_nil_r. simpl.
  by rewrite eta.
Qed.

Lemma length_splice_one a i :
  length (snd (splice a i 1)) = length a - (if removes a i then 1 else 0).
Proof.
  unfold removes, splice, length. simpl.
  pose proof (actualStart_le a i) as Hle.
  rewrite actualDeleteCount_one.
  destruct (decide _) as [Hlt|Hge].
  - rewrite length_app, length_take, length_drop.
    destruct (drop (actualStart a i) (items a)) as [|x l] eqn:E.
    + apply (f_equal List.length) in E. rewrite length_drop in E. simpl in E. lia.
    + simpl. lia.
  - simpl. rewrite length_app, length_take, length_drop. lia.
Qed.

Lemma splice_one_removes a i :
  removes a i = true <-> ~ (length a <= i \/ length a = 0).
Proof.
  rewrite <- actualStart_at_end. unfold removes, splice. simpl.
  pose proof (actualStart_le a i) as Hle.
  rewrite actualDeleteCount_one.
  destruct (decide _) as [Hlt|Hge].
  - destruct (drop (actualStart a i) (items a)) as [|x l] eqn:E.
    + apply (f_equal List.length) in E. rewrite length_drop in E. simpl in E. lia.
    + simpl. split; [lia | done].
  - simpl. split; [done | lia].
Qed.

(** reads and writes *)
Lemma get_in_range a i :
  0 <= i -> i < length a -> get a i = default None (items a !! Z.to_nat i).
Proof.
  unfold get. intros. destruct (decide (0 <= i < length a)); [done | lia].
Qed.

Lemma get_property a i :
  i < 0 \/ (maxLength <= i /\ length a <= i) -> get a i = props a !! i.
Proof.
  unfold get. intros H.
  destruct (decide (0 <= i < length a)) as [?|_]; [lia|].
  destruct (decide (0 <= i < maxLength)) as [?|_]; [lia | done].
Qed.

Lemma get_put_same a i d : get (put a i d) i = Some d.
Proof.
  unfold put.
  destruct (decide (0 <= i < length a)) as [Hin|Hout].
  - rewrite get_in_range; unfold length in *; simpl;
      [|lia|rewrite length_insert; lia].
    by rewrite list_lookup_insert_eq by lia.
  - destruct (decide (0 <= i < maxLength)) as [Hidx|Hkey].
    + unfold length in Hout.
      rewrite get_in_range; unfold length; simpl;
        [|lia|rewrite !length_app, length_replicate; simpl; lia].
      rewrite lookup_app_r by lia.
      rewrite lookup_app_r by (rewrite length_replicate; lia).
      rewrite length_replicate.
      by replace (_ - _ - _)%nat with 0%nat by lia.
    + rewrite get_property by (unfold length in *; simpl; lia).
      simpl. by rewrite lookup_insert_eq.
Qed.

Lemma length_put_in_range a i d :
  0 <= i -> i < length a -> length (put a i d) = length a.
Proof.
  unfold put. intros H0 Hlt.
  destruct (decide (0 <= i < length a)) as [_|?]; [|lia].
  unfold length. simpl. by rewrite length_insert.
Qed.

Lemma put_beyond a i d :
  length a <= i -> i < maxLength ->
  put a i d =
  mk (items a ++ replicate (Z.to_nat (i - length a)) None ++ [Some d]) (props a).
Proof.
  unfold put. intros Hle Hmax. pose proof (length_nonneg a).
  destruct (decide (0 <= i < length a)) as [?|_]; [lia|].
  destruct (decide (0 <= i < maxLength)) as [_|?]; [|lia].
  unfold length. do 4 f_equal. lia.
Qed.

Lemma put_property a i d :
  i < 0 \/ (maxLength <= i /\ length a <= i) ->
  put a i d = mk (items a) (<[i := d]> (props a)).
Proof.
  unfold put. intros H.
  destruct (decide (0 <= i < length a)) as [?|_]; [lia|].
  destruct (decide (0 <= i < maxLength)) as [?|_]; [lia | done].
Qed.


Lemma get_put_beyond_old a i d j :
  length a <= i -> i < maxLength -> j < length a ->
  get (put a i d) j = get a j.
Proof.
  intros Hle Hmax Hj. rewrite put_beyond by done. unfold get, length in *. simpl.
  rewrite !length_app, length_replicate. simpl.
  destruct (decide (0 <= j < Z.of_nat (List.length (items a)))) as [Hin|Hout].
  - destruct (decide _) as [_|?]; [|lia]. by rewrite lookup_app_l by lia.
  - destruct (decide _) as [?|_]; [lia|]. done.
Qed.


Lemma put_put_same a i d d' : put (put a i d) i d' = put a i d'.
Proof.
  unfold put at 2 3.
  destruct (decide (0 <= i < length a)) as [Hin|Hout].
  - unfold put, length in *. simpl. rewrite length_insert.
    destruct (decide _) as [_|?]; [|lia]. by rewrite list_insert_insert_eq.
  - destruct (decide (0 <= i < maxLength)) as [Hidx|Hkey].
    + unfold put, length in *. simpl. rewrite !length_app, length_replicate. simpl.
      destruct (decide _) as [_|?]; [|lia].
      f_equal. rewrite insert_app_r_alt by lia.
      rewrite insert_app_r_alt by (rewrite length_replicate; lia).
      rewrite length_replicate.
      by replace (_ - _ - _)%nat with 0%nat by lia.
    + unfold put, length in *. simpl.
      destruct (decide _) as [?|_]; [lia|].
      destruct (decide _) as [?|_]; [lia|].
      by rewrite insert_insert_eq.
Qed.

(** iteration *)
Lemma drain_prefix {R} (kind : Z -> option D -> R) fuel a n :
  (n + fuel <= List.length (items a))%nat ->
  drain (step kind a) fuel (mkIterator n false) =
  (imap (fun j v => kind (Z.of_nat (n + j)) v) (take fuel (drop n (items a))),
   mkIterator (n + fuel) false).
Proof.
  revert n. induction fuel as [|fuel IH]; intros n Hle; simpl.
  - by rewrite Nat.add_0_r.
  - unfold step. simpl. destruct (decide _) as [?|_]; [lia|].
    destruct (lookup_lt_is_Some_2 (items a) n) as [x Hx]; [lia|].
    rewrite IH by lia. rewrite (drop_S _ _ _ Hx), Hx. simpl.
    rewrite Nat.add_0_r, Nat.add_succ_r. do 2 f_equal.
    apply imap_ext. intros j y _. simpl. do 2 f_equal. lia.
Qed.

Lemma drain_all {R} (kind : Z -> option D -> R) fuel a n :
  (n <= List.length (items a))%nat ->
  (List.length (items a) - n < fuel)%nat ->
  drain (step kind a) fuel (mkIterator n false) =
  (imap (fun j v => kind (Z.of_nat (n + j)) v) (drop n (items a)),
   mkIterator (List.length (items a)) true).
Proof.
  revert n. induction fuel as [|fuel IH]; intros n Hle Hfuel; [lia|]. simpl.
  unfold step. simpl. destruct (decide _) as [Hend|Hmore].
  - assert (n = List.length (items a)) as -> by lia. by rewrite drop_all.
  - destruct (lookup_lt_is_Some_2 (items a) n) as [x Hx]; [lia|].
    rewrite IH by lia. rewrite (drop_S _ _ _ Hx), Hx. simpl.
    rewrite Nat.add_0_r. do 2 f_equal.
    apply imap_ext. intros j y _. simpl. do 2 f_equal. lia.
Qed.

Lemma drain_exhausted {R} (kind : Z -> option D -> R) fuel a n :
  drain (step kind a) fuel (mkIterator n true) = ([], mkIterator n true).
Proof. by destruct fuel. Qed.

Lemma drain_fresh {R} (kind : Z -> option D -> R) fuel a :
  (List.length (items a) < fuel)%nat ->
  drain (step kind a) fuel start =
  (imap (fun j v => kind (Z.of_nat j) v) (items a),
   mkIterator (List.length (items a)) true).
Proof. intros H. unfold start. rewrite drain_all by lia. done. Qed.

Lemma drain_resume {R} (kind : Z -> option D -> R) fuel a k :
  (k <= List.length (items a))%nat ->
  (List.length (items a) < fuel)%nat ->
  exists pre rest it,
    drain (step kind a) k start = (pre, it) /\
    drain (step kind a) fuel it = (rest, mkIterator (List.length (items a)) true) /\
    List.length pre = k /\
    pre ++ rest = imap (fun j v => kind (Z.of_nat j) v) (items a).
Proof.
  intros Hk Hfuel. unfold start. rewrite drain_prefix by (simpl; lia).
  simpl. do 3 eexists. split; [reflexivity|].
  rewrite drain_all by lia. split; [reflexivity|].
  rewrite drop_0, length_imap, length_take. split; [lia|].
  rewrite <- (take_drop k (items a)) at 3. rewrite imap_app.
  f_equal. rewrite length_take. apply imap_ext. intros j y _. simpl.
  do 2 f_equal. lia.
Qed.

Lemma values_of_entries (l : list (option D)) :
  snd <$> imap (fun j v => entryKind (Z.of_nat j) v) l
  = imap (fun j v => valueKind (Z.of_nat j) v) l.
Proof. rewrite fmap_imap. by apply imap_ext. Qed.

Lemma values_are_items (l : list (option D)) :
  imap (fun j v => valueKind (Z.of_nat j) v) l = l.
Proof.
  unfold valueKind. rewrite (imap_const (fun v => v)). apply list_fmap_id.
Qed.
End Facts.
End JsArrayFacts.

(** * Facts about objects and the method monad *)


Lemma spread_twice {V : Type} (old : option (gmap string V)) (value : gmap string V) :
  spread (spread ∅ (Some (spread (spread ∅ old) (Some value)))) (Some value)
  = spread (spread ∅ old) (Some value).
Proof.
  simpl. rewrite (right_id_L ∅ (∪)).
  by rewrite (assoc_L (∪)), (idemp_L (∪)).
Qed.

Lemma spread_present {V : Type} (old : option (gmap string V))
    (value : gmap string V) (f : string) (x : V) :
  value !! f = Some x -> spread (spread ∅ old) (Some value) !! f = Some x.
Proof. intros H. simpl. by apply lookup_union_Some_l. Qed.

Lemma spread_absent {V : Type} (old : option (gmap string V))
    (value : gmap string V) (f : string) :
  value !! f = None ->
  spread (spread ∅ old) (Some value) !! f = default ∅ old !! f.
Proof.
  intros H. simpl. rewrite lookup_union_r by done.
  destruct old as [s|]; simpl; [|done].
  by rewrite (right_id_L ∅ (∪)).
Qed.

(** Unfolds a method body down to the state transformers it is made of. *)
Ltac run_method :=
  unfold call, bind, this, throw, fromProperty; simpl.

(** * Facts about [DescriptorChainBase] *)

Module BaseFacts.
Import DescriptorChainBase.
Section Facts.
Context {O V : Type}.
Implicit Types (c : Chain O V) (w : World O V) (i : Z) (value : gmap string V).

Lemma base_withData_same c : withData c (data c) = c.
Proof. by destruct c. Qed.

Lemma base_load_found c w d :
  source w (List.length (queries w)) (object c) (key c) = Some d ->
  load c w =
  (Normal (add d c), add d c,
   mkWorld (source w) (queries w ++ [(object c, key c)])).
Proof. intros H. unfold load. run_method. by rewrite H. Qed.

Lemma base_load_missing c w :
  source w (List.length (queries w)) (object c) (key c) = None ->
  load c w =
  (Throw (mkError ("Descriptor not found for key: " ++ key c)), c,
   mkWorld (source w) (queries w ++ [(object c, key c)])).
Proof. intros H. unfold load. run_method. by rewrite H. Qed.

Lemma base_size_add c d : size (add d c) = size c + 1.
Proof. apply JsArrayFacts.length_push. Qed.

Lemma base_size_delete c i :
  size (delete i c) = size c - (if removes (data c) i then 1 else 0).
Proof. apply JsArrayFacts.length_splice_one. Qed.

Lemma base_delete_noop_iff c i :
  delete i c = c <-> (size c <= i \/ size c = 0).
Proof.
  split.
  - intros H. destruct (removes (data c) i) eqn:E.
    + pose proof (base_size_delete c i) as Hs. rewrite H, E in Hs. lia.
    + destruct (decide (size c <= i \/ size c = 0)) as [?|Hn]; [done|].
      apply JsArrayFacts.splice_one_removes in Hn. unfold size in *. congruence.
  - intros H. unfold delete.
    rewrite JsArrayFacts.splice_one_noop by done. apply base_withData_same.
Qed.

Lemma base_has_spec c i : has i c = true <-> 0 <= i < size c.
Proof.
  unfold has, size. rewrite andb_true_iff, !bool_decide_eq_true. lia.
Qed.

Lemma base_has_false c i : has i c = false <-> (i < 0 \/ size c <= i).
Proof.
  rewrite <- not_true_iff_false, base_has_spec. lia.
Qed.

Lemma base_get_update c i value :
  get i (update i value c) = Some (spread (spread ∅ (get i c)) (Some value)).
Proof. apply JsArrayFacts.get_put_same. Qed.

Lemma base_update_update c i value :
  update i value (update i value c) = update i value c.
Proof.
  unfold update at 1. fold (get i (update i value c)).
  rewrite base_get_update. unfold get. rewrite spread_twice.
  unfold update, withData. simpl. by rewrite JsArrayFacts.put_put_same.
Qed.

Lemma base_size_update_in_range c i value :
  has i c = true -> size (update i value c) = size c.
Proof.
  intros H. apply base_has_spec in H.
  apply JsArrayFacts.length_put_in_range; unfold size in H; lia.
Qed.


Lemma base_size_nonneg c : 0 <= size c.
Proof. apply JsArrayFacts.length_nonneg. Qed.

(** One call of [add], [load] or [delete] keeps the size equal to the
    difference of the two counts. *)
Lemma base_tally_step (mth : Call) c w t :
  BaseHistory.addLoadDelete mth = true ->
  size c = Z.of_nat (appended t) - Z.of_nat (removed t) ->
  size (invoke mth c w).1.2
  = Z.of_nat (appended (BaseHistory.tally mth c (invoke mth c w).1.1 t))
    - Z.of_nat (removed (BaseHistory.tally mth c (invoke mth c w).1.1 t)).
Proof.
  intros Hm Hinv. destruct mth; try discriminate Hm; simpl.
  - rewrite base_size_add. lia.
  - rewrite base_size_delete. destruct (removes (data c) index); simpl; lia.
  - destruct (source w (List.length (queries w)) (object c) (key c)) as [d|] eqn:E.
    + rewrite (base_load_found c w d E). simpl. rewrite base_size_add. lia.
    + rewrite (base_load_missing c w E). simpl. lia.
Qed.

Lemma base_run_tally (ms : list Call) :
  forallb BaseHistory.addLoadDelete ms = true ->
  forall c w t,
    size c = Z.of_nat (appended t) - Z.of_nat (removed t) ->
    size (BaseHistory.run ms c w t).1.1
    = Z.of_nat (appended (BaseHistory.run ms c w t).2)
      - Z.of_nat (removed (BaseHistory.run ms c w t).2).
Proof.
  induction ms as [|mth ms IH]; intros Hms c w t Hinv; [done|].
  simpl in Hms. apply andb_true_iff in Hms as [Hm Hms]. simpl.
  pose proof (base_tally_step mth c w t Hm Hinv) as Hstep.
  destruct (invoke mth c w) as [[r c'] w']. simpl in Hstep.
  by apply IH.
Qed.
End Facts.
End BaseFacts.

(** * Facts about the stand-alone [DescriptorChain] *)

Module MinimalFacts.
Import DescriptorChain.
Section Facts.
Context {O V : Type}.
Implicit Types (c : Chain O V) (w : World O V) (i : Z) (value : gmap string V).

Lemma minimal_withData_same c : withData c (data c) = c.
Proof. by destruct c. Qed.

Lemma minimal_load_found c w d :
  source w (List.length (queries w)) (object c) (key c) = Some d ->
  load c w =
  (Normal (add d c), add d c,
   mkWorld (source w) (queries w ++ [(object c, key c)])).
Proof. intros H. unfold load. run_method. by rewrite H. Qed.

Lemma minimal_load_missing c w :
  source w (List.length (queries w)) (object c) (key c) = None ->
  load c w =
  (Throw (mkError ("Descriptor not found for key: " ++ key c)), c,
   mkWorld (source w) (queries w ++ [(object c, key c)])).
Proof. intros H. unfold load. run_method. by rewrite H. Qed.

Lemma minimal_size_add c d : size (add d c) = size c + 1.
Proof. apply JsArrayFacts.length_push. Qed.

Lemma minimal_size_delete c i :
  size (delete i c) = size c - (if removes (data c) i then 1 else 0).
Proof. apply JsArrayFacts.length_splice_one. Qed.

Lemma minimal_delete_noop_iff c i :
  delete i c = c <-> (size c <= i \/ size c = 0).
Proof.
  split.
  - intros H. destruct (removes (data c) i) eqn:E.
    + pose proof (minimal_size_delete c i) as Hs. rewrite H, E in Hs. lia.
    + destruct (decide (size c <= i \/ size c = 0)) as [?|Hn]; [done|].
      apply JsArrayFacts.splice_one_removes in Hn. unfold size in *. congruence.
  - intros H. unfold delete.
    rewrite JsArrayFacts.splice_one_noop by done. apply minimal_withData_same.
Qed.

Lemma minimal_has_spec c i : has i c = true <-> 0 <= i < size c.
Proof.
  unfold has, size. rewrite andb_true_iff, !bool_decide_eq_true. lia.
Qed.

Lemma minimal_has_false c i : has i c = false <-> (i < 0 \/ size c <= i).
Proof.
  rewrite <- not_true_iff_false, minimal_has_spec. lia.
Qed.

Lemma minimal_get_update c i value :
  get i (update i value c) = Some (spread (spread ∅ (get i c)) (Some value)).
Proof. apply JsArrayFacts.get_put_same. Qed.

Lemma minimal_update_update c i value :
  update i value (update i value c) = update i value c.
Proof.
  unfold update at 1. fold (get i (update i value c)).
  rewrite minimal_get_update. unfold get. rewrite spread_twice.
  unfold update, withData. simpl. by rewrite JsArrayFacts.put_put_same.
Qed.

Lemma minimal_size_update_in_range c i value :
  has i c = true -> size (update i value c) = size c.
Proof.
  intros H. apply minimal_has_spec in H.
  apply JsArrayFacts.length_put_in_range; unfold size in H; lia.
Qed.


Lemma minimal_size_nonneg c : 0 <= size c.
Proof. apply JsArrayFacts.length_nonneg. Qed.

(** One call of [add], [load] or [delete] keeps the size equal to the
    difference of the two counts. *)
Lemma minimal_tally_step (mth : Call) c w t :
  MinimalHistory.addLoadDelete mth = true ->
  size c = Z.of_nat (appended t) - Z.of_nat (removed t) ->
  size (invoke mth c w).1.2
  = Z.of_nat (appended (MinimalHistory.tally mth c (invoke mth c w).1.1 t))
    - Z.of_nat (removed (MinimalHistory.tally mth c (invoke mth c w).1.1 t)).
Proof.
  intros Hm Hinv. destruct mth; try discriminate Hm; simpl.
  - rewrite minimal_size_add. lia.
  - rewrite minimal_size_delete. destruct (removes (data c) index); simpl; lia.
  - destruct (source w (List.length (queries w)) (object c) (key c)) as [d|] eqn:E.
    + rewrite (minimal_load_found c w d E). simpl. rewrite minimal_size_add. lia.
    + rewrite (minimal_load_missing c w E). simpl. lia.
Qed.

Lemma minimal_run_tally (ms : list Call) :
  forallb MinimalHistory.addLoadDelete ms = true ->
  forall c w t,
    size c = Z.of_nat (appended t) - Z.of_nat (removed t) ->
    size (MinimalHistory.run ms c w t).1.1
    = Z.of_nat (appended (MinimalHistory.run ms c w t).2)
      - Z.of_nat (removed (MinimalHistory.run ms c w t).2).
Proof.
  induction ms as [|mth ms IH]; intros Hms c w t Hinv; [done|].
  simpl in Hms. apply andb_true_iff in Hms as [Hm Hms]. simpl.
  pose proof (minimal_tally_step mth c w t Hm Hinv) as Hstep.
  destruct (invoke mth c w) as [[r c'] w']. simpl in Hstep.
  by apply IH.
Qed.
End Facts.
End MinimalFacts.

(** * The claims *)


(** C2, as stated, fails: [has(-1)] is false on a chain holding one snapshot,
    yet [delete(-1)] removes that snapshot, because [splice] counts a
    negative start from the end of the array. *)
Lemma delete_negative_index_removes :
  Base.has (-1) Sample.base1 = false /\
  Base.size Sample.base1 = 1 /\
  Base.size (Base.delete (-1) Sample.base1) = 0 /\
  Base.get 0 (Base.delete (-1) Sample.base1) = None /\
  Minimal.has (-1) Sample.minimal1 = false /\
  Minimal.size (Minimal.delete (-1) Sample.minimal1) = 0.
Proof. repeat split; vm_compute; reflexivity. Qed.

(** C2, amended.  [delete(index)] never throws and returns the chain.  It
    leaves the chain as it was exactly when [index >= size] or the chain is
    empty; in every other case, a negative [index] included, it removes one
    slot. *)
Theorem delete_is_noop_exactly_past_the_end {O V : Type}
    (c : Base.Chain O V) (m : Minimal.Chain O V) (w : World O V) (index : Z) :
  (Base.invoke (Base.CallDelete index) c w
     = (Normal (Base.delete index c), Base.delete index c, w) /\
   (Base.delete index c = c <-> (Base.size c <= index \/ Base.size c = 0)) /\
   (Base.delete index c = c \/ Base.size (Base.delete index c) = Base.size c - 1))
  /\
  (Minimal.invoke (Minimal.CallDelete index) m w
     = (Normal (Minimal.delete index m), Minimal.delete index m, w) /\
   (Minimal.delete index m = m <-> (Minimal.size m <= index \/ Minimal.size m = 0)) /\
   (Minimal.delete index m = m
    \/ Minimal.size (Minimal.delete index m) = Minimal.size m - 1)).
Proof.
  split; (split; [reflexivity | split]).
  - apply BaseFacts.base_delete_noop_iff.
  - rewrite BaseFacts.base_size_delete. destruct (removes (Base.data c) index) eqn:E.
    + by right.
    + left. apply BaseFacts.base_delete_noop_iff.
      destruct (decide (Base.size c <= index \/ Base.size c = 0)) as [?|Hn]; [done|].
      apply JsArrayFacts.splice_one_removes in Hn. congruence.
  - apply MinimalFacts.minimal_delete_noop_iff.
  - rewrite MinimalFacts.minimal_size_delete. destruct (removes (Minimal.data m) index) eqn:E.
    + by right.
    + left. apply MinimalFacts.minimal_delete_noop_iff.
      destruct (decide (Minimal.size m <= index \/ Minimal.size m = 0)) as [?|Hn];
        [done|].
      apply JsArrayFacts.splice_one_removes in Hn. congruence.
Qed.




(** C5. On a chain holding the snapshots [s0], [s1], [s2] in that order,
    [delete(1)] removes the middle one and closes the gap: the size is 2,
    [get(0)] is [s0], [get(1)] is the former [s2], and no hole is left.  The
    chain built by [add(s0); add(s1); add(s2)] from a new chain is such a
    chain. *)
Theorem delete_middle_shifts_down {O V : Type}
    (c : Base.Chain O V) (m : Minimal.Chain O V) (s0 s1 s2 : gmap string V)
    (Hc : JsArray.items (Base.data c) = [Some s0; Some s1; Some s2])
    (Hm : JsArray.items (Minimal.data m) = [Some s0; Some s1; Some s2]) :
  (Base.size (Base.delete 1 c) = 2 /\
   Base.get 0 (Base.delete 1 c) = Some s0 /\
   Base.get 1 (Base.delete 1 c) = Some s2 /\
   JsArray.items (Base.data (Base.delete 1 c)) = [Some s0; Some s2]) /\
  (Minimal.size (Minimal.delete 1 m) = 2 /\
   Minimal.get 0 (Minimal.delete 1 m) = Some s0 /\
   Minimal.get 1 (Minimal.delete 1 m) = Some s2 /\
   JsArray.items (Minimal.data (Minimal.delete 1 m)) = [Some s0; Some s2]) /\
  (forall (o : O) k ctor,
     JsArray.items (Base.data
       (Base.add s2 (Base.add s1 (Base.add s0 (Base.new o k ctor)))))
     = [Some s0; Some s1; Some s2]) /\
  (forall (o : O) k,
     JsArray.items (Minimal.data
       (Minimal.add s2 (Minimal.add s1 (Minimal.add s0 (@Minimal.new O V o k)))))
     = [Some s0; Some s1; Some s2]).
Proof.
  assert (Hb : JsArray.items (Base.data (Base.delete 1 c)) = [Some s0; Some s2]).
  { destruct c as [? ? ? ? [its ps] ? ?]. simpl in Hc. subst its. reflexivity. }
  assert (Hn : JsArray.items (Minimal.data (Minimal.delete 1 m)) = [Some s0; Some s2]).
  { destruct m as [? [its ps] ? ?]. simpl in Hm. subst its. reflexivity. }
  assert (Lb : JsArray.length (Base.data (Base.delete 1 c)) = 2)
    by (unfold JsArray.length; by rewrite Hb).
  assert (Ln : JsArray.length (Minimal.data (Minimal.delete 1 m)) = 2)
    by (unfold JsArray.length; by rewrite Hn).
  unfold Base.size, Base.get, Minimal.size, Minimal.get.
  rewrite !JsArrayFacts.get_in_range by lia. rewrite Hb, Hn.
  repeat split; done.
Qed.

Lemma delete_middle_shifts_down_witness :
  Base.size (Base.delete 1 Sample.base3) = 2 /\
  Base.get 0 (Base.delete 1 Sample.base3) = Some Sample.S0 /\
  Base.get 1 (Base.delete 1 Sample.base3) = Some Sample.S2 /\
  Minimal.get 1 (Minimal.delete 1 Sample.minimal3) = Some Sample.S2.
Proof.
  pose proof (delete_middle_shifts_down Sample.base3 Sample.minimal3
                Sample.S0 Sample.S1 Sample.S2 eq_refl eq_refl)
    as [(Hsize & Hget0 & Hget1 & _) [(_ & _ & Hmin & _) _]].
  exact (conj Hsize (conj Hget0 (conj Hget1 Hmin))).
Defined.

(** C8. [setCurrentIndex(index)] completes normally for every integer
    [index], inside the bounds or not, and stores it as it is, changing
    nothing else.  On a chain of size 2, after [setCurrentIndex(5)], reading
    [current] gives [undefined] and [has(5)] is false. *)
Theorem setCurrentIndex_is_unchecked {O V : Type}
    (c : Base.Chain O V) (m : Minimal.Chain O V) (w : World O V) (index : Z) :
  (Base.invoke (Base.CallSetCurrentIndex index) c w
     = (Normal (Base.setCurrentIndex index c), Base.setCurrentIndex index c, w) /\
   Base.currentIndex (Base.setCurrentIndex index c) = index /\
   Base.data (Base.setCurrentIndex index c) = Base.data c /\
   (Base.size c = 2 ->
    Base.current (Base.setCurrentIndex 5 c) = None /\
    Base.has 5 (Base.setCurrentIndex 5 c) = false)) /\
  (Minimal.invoke (Minimal.CallSetCurrentIndex index) m w
     = (Normal (Minimal.setCurrentIndex index m), Minimal.setCurrentIndex index m, w) /\
   Minimal.currentIndex (Minimal.setCurrentIndex index m) = index /\
   Minimal.data (Minimal.setCurrentIndex index m) = Minimal.data m /\
   (Minimal.size m = 2 ->
    Minimal.current (Minimal.setCurrentIndex 5 m) = None /\
    Minimal.has 5 (Minimal.setCurrentIndex 5 m) = false)).
Proof.
  split; (do 3 (split; [reflexivity|])); intros Hsize; split.
  - apply JsArrayFacts.get_out_of_range; [|reflexivity].
    simpl. unfold Base.size in Hsize. lia.
  - apply BaseFacts.base_has_false. right. unfold Base.size in *. simpl. lia.
  - apply JsArrayFacts.get_out_of_range; [|reflexivity].
    simpl. unfold Minimal.size in Hsize. lia.
  - apply MinimalFacts.minimal_has_false. right. unfold Minimal.size in *. simpl. lia.
Qed.

Lemma setCurrentIndex_is_unchecked_witness :
  Base.size Sample.base2 = 2 /\
  Base.currentIndex (Base.setCurrentIndex 5 Sample.base2) = 5 /\
  Base.current (Base.setCurrentIndex 5 Sample.base2) = None /\
  Base.has 5 (Base.setCurrentIndex 5 Sample.base2) = false /\
  Minimal.current (Minimal.setCurrentIndex 5 Sample.minimal2) = None.
Proof.
  pose proof (setCurrentIndex_is_unchecked Sample.base2 Sample.minimal2
                Sample.world 5)
    as [(_ & Hidx & _ & Hb) (_ & _ & _ & Hm)].
  destruct (Hb eq_refl) as [Hcur Hhas]. destruct (Hm eq_refl) as [Hmcur _].
  exact (conj eq_refl (conj Hidx (conj Hcur (conj Hhas Hmcur)))).
Defined.

(** C10. [clear()] empties the snapshot sequence and touches nothing else:
    the size is 0 afterwards, and [currentIndex], [active], [enabled], [key]
    and [object] are what they were; the cursor is not moved to 0. *)
Theorem clear_keeps_cursor_and_flags {O V : Type}
    (c : Base.Chain O V) (m : Minimal.Chain O V) :
  (Base.size (Base.clear c) = 0 /\
   Base.currentIndex (Base.clear c) = Base.currentIndex c /\
   Base.active (Base.clear c) = Base.active c /\
   Base.enabled (Base.clear c) = Base.enabled c /\
   Base.key (Base.clear c) = Base.key c /\
   Base.object (Base.clear c) = Base.object c) /\
  (Minimal.size (Minimal.clear m) = 0 /\
   Minimal.currentIndex (Minimal.clear m) = Minimal.currentIndex m /\
   Minimal.active (Minimal.clear m) = Minimal.active m /\
   Minimal.enabled (Minimal.clear m) = Minimal.enabled m /\
   Minimal.key (Minimal.clear m) = Minimal.key m /\
   Minimal.object (Minimal.clear m) = Minimal.object m).
Proof. repeat split. Qed.

(** C4. For an index [i] in range, [update(i, value)] stores at [i] a snapshot
    in which every field present on [value] has [value]'s field value and
    every field absent from [value] has the value it had in the snapshot
    stored before; a second [update(i, value)] with the same [value] changes
    nothing. *)
Theorem update_merges_and_is_idempotent {O V : Type}
    (c : Base.Chain O V) (m : Minimal.Chain O V) (i : Z) (value : gmap string V)
    (Hc : Base.has i c = true) (Hm : Minimal.has i m = true) :
  (exists stored : gmap string V,
     Base.get i (Base.update i value c) = Some stored /\
     (forall f x, value !! f = Some x -> stored !! f = Some x) /\
     (forall f, value !! f = None -> stored !! f = default ∅ (Base.get i c) !! f) /\
     Base.update i value (Base.update i value c) = Base.update i value c /\
     Base.size (Base.update i value c) = Base.size c) /\
  (exists stored : gmap string V,
     Minimal.get i (Minimal.update i value m) = Some stored /\
     (forall f x, value !! f = Some x -> stored !! f = Some x) /\
     (forall f, value !! f = None -> stored !! f = default ∅ (Minimal.get i m) !! f) /\
     Minimal.update i value (Minimal.update i value m) = Minimal.update i value m /\
     Minimal.size (Minimal.update i value m) = Minimal.size m).
Proof.
  split.
  - exists (spread (spread ∅ (Base.get i c)) (Some value)).
    split; [apply BaseFacts.base_get_update|].
    split; [intros f x; apply spread_present|].
    split; [intros f; apply spread_absent|].
    split; [apply BaseFacts.base_update_update | by apply BaseFacts.base_size_update_in_range].
  - exists (spread (spread ∅ (Minimal.get i m)) (Some value)).
    split; [apply MinimalFacts.minimal_get_update|].
    split; [intros f x; apply spread_present|].
    split; [intros f; apply spread_absent|].
    split; [apply MinimalFacts.minimal_update_update
           | by apply MinimalFacts.minimal_size_update_in_range].
Qed.

Lemma update_merges_and_is_idempotent_witness :
  Base.has 1 Sample.base3 = true /\
  Minimal.has 1 Sample.minimal3 = true /\
  Base.update 1 Sample.partial (Base.update 1 Sample.partial Sample.base3)
    = Base.update 1 Sample.partial Sample.base3 /\
  Base.size (Base.update 1 Sample.partial Sample.base3) = Base.size Sample.base3.
Proof.
  destruct (update_merges_and_is_idempotent Sample.base3 Sample.minimal3 1
              Sample.partial eq_refl eq_refl)
    as [(stored & _ & _ & _ & Hidem & Hsize) _].
  exact (conj eq_refl (conj eq_refl (conj Hidem Hsize))).
Defined.




(** C7. On a chain that is not modified meanwhile, [entries()] yields the
    pairs [(0, s_0), (1, s_1), ...] in ascending index order, [values()]
    yields [s_0, s_1, ...], and the snapshots of the pairs are, in order, the
    values.  Both end after [size] results and stay ended.  An iterator that
    was advanced [k] times goes on from position [k], while a new call of
    the method starts again from the first slot of the chain's storage. *)
Theorem entries_match_values_and_restart {O V : Type}
    (c : Base.Chain O V) (m : Minimal.Chain O V) (fuel : nat)
    (Hc : Base.size c < Z.of_nat fuel) (Hm : Minimal.size m < Z.of_nat fuel) :
  (exists es vs done,
     JsArray.drain (Base.entriesNext c) fuel (Base.entries c) = (es, done) /\
     JsArray.drain (Base.valuesNext c) fuel (Base.values c) = (vs, done) /\
     snd <$> es = vs /\
     vs = JsArray.items (Base.data c) /\
     Z.of_nat (List.length es) = Base.size c /\
     (forall j p, es !! j = Some p -> fst p = Z.of_nat j) /\
     (forall n, JsArray.drain (Base.entriesNext c) n done = ([], done)) /\
     (forall n, JsArray.drain (Base.valuesNext c) n done = ([], done)) /\
     (forall k, Z.of_nat k <= Base.size c ->
        exists pre rest it,
          JsArray.drain (Base.entriesNext c) k (Base.entries c) = (pre, it) /\
          JsArray.drain (Base.entriesNext c) fuel it = (rest, done) /\
          List.length pre = k /\ pre ++ rest = es)) /\
  (exists es vs done,
     JsArray.drain (Minimal.entriesNext m) fuel (Minimal.entries m) = (es, done) /\
     JsArray.drain (Minimal.valuesNext m) fuel (Minimal.values m) = (vs, done) /\
     snd <$> es = vs /\
     vs = JsArray.items (Minimal.data m) /\
     Z.of_nat (List.length es) = Minimal.size m /\
     (forall j p, es !! j = Some p -> fst p = Z.of_nat j) /\
     (forall n, JsArray.drain (Minimal.entriesNext m) n done = ([], done)) /\
     (forall n, JsArray.drain (Minimal.valuesNext m) n done = ([], done)) /\
     (forall k, Z.of_nat k <= Minimal.size m ->
        exists pre rest it,
          JsArray.drain (Minimal.entriesNext m) k (Minimal.entries m) = (pre, it) /\
          JsArray.drain (Minimal.entriesNext m) fuel it = (rest, done) /\
          List.length pre = k /\ pre ++ rest = es)).
Proof.
  split.
  - unfold Base.size, JsArray.length in Hc |- *.
    unfold Base.entriesNext, Base.valuesNext, Base.entries, Base.values.
    eexists _, _, _.
    split; [apply JsArrayFacts.drain_fresh; lia|].
    split; [apply JsArrayFacts.drain_fresh; lia|].
    split; [apply JsArrayFacts.values_of_entries|].
    split; [apply JsArrayFacts.values_are_items|]. split; [by rewrite length_imap|].
    split; [intros j p Hp; apply list_lookup_imap_Some in Hp as (y & _ & ->); done|].
    split; [intros n; apply JsArrayFacts.drain_exhausted|].
    split; [intros n; apply JsArrayFacts.drain_exhausted|].
    intros k Hk. apply JsArrayFacts.drain_resume; lia.
  - unfold Minimal.size, JsArray.length in Hm |- *.
    unfold Minimal.entriesNext, Minimal.valuesNext, Minimal.entries, Minimal.values.
    eexists _, _, _.
    split; [apply JsArrayFacts.drain_fresh; lia|].
    split; [apply JsArrayFacts.drain_fresh; lia|].
    split; [apply JsArrayFacts.values_of_entries|].
    split; [apply JsArrayFacts.values_are_items|]. split; [by rewrite length_imap|].
    split; [intros j p Hp; apply list_lookup_imap_Some in Hp as (y & _ & ->); done|].
    split; [intros n; apply JsArrayFacts.drain_exhausted|].
    split; [intros n; apply JsArrayFacts.drain_exhausted|].
    intros k Hk. apply JsArrayFacts.drain_resume; lia.
Qed.

Lemma entries_match_values_and_restart_witness :
  Base.size Sample.base3 < Z.of_nat 4 /\
  Minimal.size Sample.minimal3 < Z.of_nat 4 /\
  exists es vs done,
    JsArray.drain (Base.entriesNext Sample.base3) 4 (Base.entries Sample.base3)
      = (es, done) /\
    JsArray.drain (Base.valuesNext Sample.base3) 4 (Base.values Sample.base3)
      = (vs, done) /\
    snd <$> es = vs /\
    vs = [Some Sample.S0; Some Sample.S1; Some Sample.S2].
Proof.
  assert (Hb : Base.size Sample.base3 < Z.of_nat 4) by reflexivity.
  assert (Hm : Minimal.size Sample.minimal3 < Z.of_nat 4) by reflexivity.
  destruct (entries_match_values_and_restart Sample.base3 Sample.minimal3 4 Hb Hm)
    as [(es & vs & done & Hes & Hvs & Hsnd & Hitems & _) _].
  split; [exact Hb|]. split; [exact Hm|].
  exists es, vs, done. exact (conj Hes (conj Hvs (conj Hsnd Hitems))).
Defined.

(** C6. Start from a newly constructed chain and make any sequence of [add],
    [load] and [delete] calls, going on after a [load] that throws.  At the
    end, [size] is the number of [add] and [load] calls that completed
    normally minus the number of [delete] calls that removed a slot, and
    [size] is [lastIndex + 1]. *)
Theorem size_counts_appends_minus_removals {O V : Type}
    (bs : list (@Base.Call V)) (ms : list (@Minimal.Call V))
    (o : O) (k : string) (ctor : O -> string -> gmap string V -> gmap string V)
    (w : World O V)
    (Hbs : forallb BaseHistory.addLoadDelete bs = true)
    (Hms : forallb MinimalHistory.addLoadDelete ms = true) :
  (Base.size (BaseHistory.run bs (Base.new o k ctor) w (mkTally 0 0)).1.1
   = Z.of_nat (appended (BaseHistory.run bs (Base.new o k ctor) w (mkTally 0 0)).2)
     - Z.of_nat (removed (BaseHistory.run bs (Base.new o k ctor) w (mkTally 0 0)).2)
   /\
   Base.size (BaseHistory.run bs (Base.new o k ctor) w (mkTally 0 0)).1.1
   = Base.lastIndex (BaseHistory.run bs (Base.new o k ctor) w (mkTally 0 0)).1.1 + 1)
  /\
  (Minimal.size (MinimalHistory.run ms (Minimal.new o k) w (mkTally 0 0)).1.1
   = Z.of_nat (appended (MinimalHistory.run ms (Minimal.new o k) w (mkTally 0 0)).2)
     - Z.of_nat (removed (MinimalHistory.run ms (Minimal.new o k) w (mkTally 0 0)).2)
   /\
   Minimal.size (MinimalHistory.run ms (Minimal.new o k) w (mkTally 0 0)).1.1
   = Minimal.lastIndex (MinimalHistory.run ms (Minimal.new o k) w (mkTally 0 0)).1.1 + 1).
Proof.
  split; split.
  - by apply BaseFacts.base_run_tally.
  - unfold Base.lastIndex, Base.size. lia.
  - by apply MinimalFacts.minimal_run_tally.
  - unfold Minimal.lastIndex, Minimal.size. lia.
Qed.

Lemma size_counts_appends_minus_removals_witness :
  forallb BaseHistory.addLoadDelete Sample.baseCalls = true /\
  forallb MinimalHistory.addLoadDelete Sample.minimalCalls = true /\
  Base.size (BaseHistory.run Sample.baseCalls
               (Base.new Sample.obj "a" Sample.wrap) Sample.worldOnce
               (mkTally 0 0)).1.1
  = Z.of_nat (appended (BaseHistory.run Sample.baseCalls
               (Base.new Sample.obj "a" Sample.wrap) Sample.worldOnce
               (mkTally 0 0)).2)
    - Z.of_nat (removed (BaseHistory.run Sample.baseCalls
               (Base.new Sample.obj "a" Sample.wrap) Sample.worldOnce
               (mkTally 0 0)).2) /\
  (BaseHistory.run Sample.baseCalls
     (Base.new Sample.obj "a" Sample.wrap) Sample.worldOnce (mkTally 0 0)).2
  = mkTally 3 1.
Proof.
  destruct (size_counts_appends_minus_removals Sample.baseCalls Sample.minimalCalls
              Sample.obj "a" Sample.wrap Sample.worldOnce eq_refl eq_refl)
    as [[Hsize _] _].
  exact (conj eq_refl (conj eq_refl (conj Hsize eq_refl))).
Defined.

(** * The scenarios of the specification, run on the model *)

Example load_then_load_again :
  let '(r1, c1, w1) := Base.load Sample.base0 Sample.worldOnce in
  let '(r2, c2, w2) := Base.load c1 w1 in
  r1 = Normal c1 /\ Base.size c1 = 1 /\
  (Base.current c1 ≫= fun s => s !! "value") = Some (Sample.JsNumber 1) /\
  r2 = Throw (mkError "Descriptor not found for key: a") /\
  c2 = c1 /\ Base.size c2 = 1 /\
  queries w2 = [(Sample.obj, "a"); (Sample.obj, "a")].
Proof. vm_compute. repeat split. Qed.

Example set_at_negative_index_is_a_property :
  Base.size (Base.set (-1) Sample.S1 Sample.base1) = 1 /\
  Base.get (-1) (Base.set (-1) Sample.S1 Sample.base1) = Some Sample.S1 /\
  Base.last (Base.clear (Base.set (-1) Sample.S1 Sample.base1)) = Some Sample.S1.
Proof. repeat split; vm_compute; reflexivity. Qed.

(** * Further facts about arrays *)

Module JsArrayLaws.
Import JsArray.
Section Laws.
Context {D : Type}.
Implicit Types (a : t D) (d : D) (i j : Z).

Lemma get_put_other a i j d : i <> j -> get (put a i d) j = get a j.
Proof.
  intros Hne. unfold put.
  destruct (decide (0 <= i < length a)) as [Hin|Hout].
  - unfold get, length in *. simpl. rewrite length_insert.
    destruct (decide _) as [Hj|Hj]; [|done].
    by rewrite list_lookup_insert_ne by lia.
  - destruct (decide (0 <= i < maxLength)) as [Hidx|Hkey].
    + unfold get, length in *. simpl. rewrite !length_app, length_replicate. simpl.
      destruct (decide (0 <= j < Z.of_nat (List.length (items a)))) as [Hj|Hj].
      * destruct (decide _) as [_|?]; [|lia]. by rewrite lookup_app_l by lia.
      * destruct (decide _) as [Hj'|Hj'].
        -- destruct (decide (0 <= j < maxLength)) as [_|?]; [|lia].
           rewrite lookup_app_r by lia.
           rewrite lookup_app_l by (rewrite length_replicate; lia).
           by rewrite lookup_replicate_2 by lia.
        -- done.
    + unfold get, length in *. simpl.
      destruct (decide _) as [Hj|Hj]; [done|].
      destruct (decide _) as [Hj'|Hj']; [done|].
      by rewrite lookup_insert_ne.
Qed.

Lemma get_nonneg_Some a i d :
  0 <= i -> i < maxLength -> get a i = Some d -> i < length a.
Proof.
  unfold get. intros Hi Hmax H.
  destruct (decide (0 <= i < length a)) as [?|_]; [lia|].
  destruct (decide (0 <= i < maxLength)) as [_|?]; [discriminate | lia].
Qed.

Lemma gapFree_get a i :
  gapFree a -> 0 <= i -> i < length a -> is_Some (get a i).
Proof.
  intros Hd Hi Hlt. rewrite JsArrayFacts.get_in_range by done.
  unfold gapFree, length in *.
  destruct (lookup_lt_is_Some_2 (items a) (Z.to_nat i)) as [x Hx]; [lia|].
  rewrite Hx. simpl. eapply Forall_lookup_1; eauto.
Qed.

Lemma gapFree_empty : gapFree (@empty D).
Proof. constructor. Qed.

Lemma gapFree_truncate a : gapFree (truncate a).
Proof. constructor. Qed.

Lemma gapFree_push a d : gapFree a -> gapFree (push a d).
Proof.
  unfold gapFree, push. simpl. intros H. apply Forall_app. split; [done|].
  repeat constructor. by eexists.
Qed.

Lemma gapFree_splice a i n : gapFree a -> gapFree (snd (splice a i n)).
Proof.
  unfold gapFree, splice. simpl. intros H. apply Forall_app. split.
  - by apply Forall_take.
  - by apply Forall_drop.
Qed.

Lemma gapFree_put a i d :
  gapFree a -> (gapFree (put a i d) <-> (i <= length a \/ maxLength <= i)).
Proof.
  unfold gapFree, put. intros H. pose proof (JsArrayFacts.length_nonneg a).
  destruct (decide (0 <= i < length a)) as [Hin|Hout]; simpl.
  - split; [lia|]. intros _. apply Forall_insert; [done | by eexists].
  - destruct (decide (0 <= i < maxLength)) as [Hidx|Hkey]; simpl;
      [|split; [lia | done]].
    unfold length in *. rewrite !Forall_app. split.
    + intros (_ & Hholes & _).
      destruct (decide (i <= Z.of_nat (List.length (items a)))) as [?|Hgt];
        [by left|].
      exfalso. destruct (Z.to_nat i - List.length (items a))%nat eqn:E; [lia|].
      simpl in Hholes. inversion Hholes as [|? ? Hnone _]; subst.
      by destruct Hnone.
    + intros Hle. replace (Z.to_nat i - List.length (items a))%nat with 0%nat by lia.
      repeat split; [done | constructor | repeat constructor; by eexists].
Qed.

(** [splice(i, 1)] for an index inside the array *)
Lemma actualStart_in_range a i :
  0 <= i -> i < length a -> actualStart a i = Z.to_nat i.
Proof. unfold actualStart, length. intros. destruct (decide (i < 0)); lia. Qed.

Lemma items_splice_in_range a i :
  0 <= i -> i < length a ->
  items (snd (splice a i 1))
  = take (Z.to_nat i) (items a) ++ drop (S (Z.to_nat i)) (items a).
Proof.
  intros Hi Hlt. unfold splice. simpl.
  rewrite JsArrayFacts.actualDeleteCount_one, actualStart_in_range by done.
  unfold length in Hlt. destruct (decide _) as [_|?]; [|lia].
  by rewrite Nat.add_1_r.
Qed.

Lemma length_splice_in_range a i :
  0 <= i -> i < length a -> length (snd (splice a i 1)) = length a - 1.
Proof.
  intros Hi Hlt. unfold length in *. rewrite items_splice_in_range by done.
  rewrite length_app, length_take, length_drop. lia.
Qed.

Lemma get_splice_before a i j :
  0 <= i -> i < length a -> j < i -> get (snd (splice a i 1)) j = get a j.
Proof.
  intros Hi Hlt Hj. unfold get.
  rewrite length_splice_in_range, items_splice_in_range by done.
  destruct (decide (0 <= j < length a - 1)) as [Hin|Hout].
  - destruct (decide (0 <= j < length a)) as [_|?]; [|lia].
    unfold length in Hlt.
    rewrite lookup_app_l by (rewrite length_take; lia).
    by rewrite lookup_take_lt by lia.
  - destruct (decide (0 <= j < length a)) as [?|_]; [lia|]. done.
Qed.

Lemma get_splice_after a i j :
  0 <= i -> i < length a -> i <= j -> j + 1 < maxLength ->
  get (snd (splice a i 1)) j = get a (j + 1).
Proof.
  intros Hi Hlt Hj Hmax. unfold get.
  rewrite length_splice_in_range, items_splice_in_range by done.
  destruct (decide (0 <= j < length a - 1)) as [Hin|Hout].
  - destruct (decide (0 <= j + 1 < length a)) as [_|?]; [|lia].
    unfold length in Hlt, Hin.
    rewrite lookup_app_r by (rewrite length_take; lia).
    rewrite length_take, lookup_drop. do 2 f_equal. lia.
  - destruct (decide (0 <= j + 1 < length a)) as [?|_]; [lia|].
    destruct (decide (0 <= j < maxLength)) as [_|?]; [|lia].
    destruct (decide (0 <= j + 1 < maxLength)) as [_|?]; [done | lia].
Qed.

Lemma get_splice_property a i j :
  j < 0 \/ (maxLength <= j /\ length a <= j) ->
  get (snd (splice a i 1)) j = get a j.
Proof.
  intros Hj. rewrite (JsArrayFacts.get_property a j Hj).
  rewrite JsArrayFacts.get_property; [done|].
  rewrite JsArrayFacts.length_splice_one. destruct (removes a i); lia.
Qed.

Lemma splice_negative a i :
  i < 0 -> splice a i 1 = splice a (Z.max (length a + i) 0) 1.
Proof.
  intros Hi.
  assert (E : actualStart a i = actualStart a (Z.max (length a + i) 0)).
  { unfold actualStart. destruct (decide (i < 0)) as [_|?]; [|lia].
    destruct (decide (_ < 0)) as [?|_]; lia. }
  unfold splice, actualDeleteCount. by rewrite E.
Qed.


Lemma put_same_value a i d : get a i = Some d -> put a i d = a.
Proof.
  unfold get, put. intros H.
  destruct (decide (0 <= i < length a)) as [Hin|Hout].
  - destruct (items a !! Z.to_nat i) as [x|] eqn:E; [|discriminate].
    simpl in H. subst x.
    rewrite list_insert_id by done. apply JsArrayFacts.eta.
  - destruct (decide (0 <= i < maxLength)) as [?|_]; [discriminate|].
    rewrite insert_id by done. apply JsArrayFacts.eta.
Qed.


End Laws.
End JsArrayLaws.

(** * Further properties of [DescriptorChainBase] *)

(** [set(i, value)] followed by [get(i)] gives [value] back, for every
    integer [i]: inside the array, past its end, or negative.  A second
    [set(i, _)] overrides the first completely. *)
Theorem set_then_get_reads_value_back {O V : Type}
    (c : Base.Chain O V) (i : Z) (v1 v2 : gmap string V) :
  Base.get i (Base.set i v2 c) = Some v2 /\
  Base.set i v2 (Base.set i v1 c) = Base.set i v2 c.
Proof.
  split.
  - apply JsArrayFacts.get_put_same.
  - unfold Base.set, Base.withData. simpl. by rewrite JsArrayFacts.put_put_same.
Qed.

(** [set(i, _)] and [update(i, _)] change what is read at index [i] only:
    every other index reads as before. *)
Theorem indexed_write_touches_one_index {O V : Type}
    (c : Base.Chain O V) (i j : Z) (value : gmap string V) (Hne : j <> i) :
  Base.get j (Base.set i value c) = Base.get j c /\
  Base.get j (Base.update i value c) = Base.get j c.
Proof. split; apply JsArrayLaws.get_put_other; congruence. Qed.

Lemma indexed_write_touches_one_index_witness :
  Base.get 0 (Base.set 5 Sample.partial Sample.base3) = Some Sample.S0 /\
  Base.get 0 (Base.update 1 Sample.partial Sample.base3) = Some Sample.S0.
Proof.
  assert (H5 : 0 <> 5) by discriminate. assert (H1 : 0 <> 1) by discriminate.
  split.
  - rewrite (proj1 (indexed_write_touches_one_index Sample.base3 5 0
                      Sample.partial H5)). reflexivity.
  - rewrite (proj2 (indexed_write_touches_one_index Sample.base3 1 0
                      Sample.partial H1)). reflexivity.
Defined.

(** On a chain without holes, [set(i, _)] and [update(i, _)] leave the chain
    without holes exactly when [i <= size] or [i >= 2^32 - 1]: an index
    inside the array overwrites, [i = size] appends, a negative [i] or an
    [i] from 2^32 - 1 on writes a property and does not touch the array, and
    any array index [i > size] makes holes. *)
Theorem indexed_write_keeps_chain_gap_free_iff {O V : Type}
    (c : Base.Chain O V) (i : Z) (value : gmap string V)
    (Hc : gapFree (Base.data c)) :
  (gapFree (Base.data (Base.set i value c))
   <-> (i <= Base.size c \/ JsArray.maxLength <= i)) /\
  (gapFree (Base.data (Base.update i value c))
   <-> (i <= Base.size c \/ JsArray.maxLength <= i)).
Proof. split; by apply JsArrayLaws.gapFree_put. Qed.

Lemma indexed_write_keeps_chain_gap_free_iff_witness :
  gapFree (Base.data Sample.base1) /\
  gapFree (Base.data (Base.set 1 Sample.S1 Sample.base1)) /\
  gapFree (Base.data (Base.set 4294967295 Sample.S1 Sample.base1)) /\
  ~ gapFree (Base.data (Base.update 3 Sample.S1 Sample.base1)).
Proof.
  assert (Hc : gapFree (Base.data Sample.base1))
    by (repeat constructor; by eexists).
  split; [exact Hc|]. split; [|split].
  - apply (proj1 (indexed_write_keeps_chain_gap_free_iff Sample.base1 1
                    Sample.S1 Hc)). left. vm_compute. discriminate.
  - apply (proj1 (indexed_write_keeps_chain_gap_free_iff Sample.base1 4294967295
                    Sample.S1 Hc)). right. vm_compute. discriminate.
  - intros H.
    apply (proj2 (indexed_write_keeps_chain_gap_free_iff Sample.base1 3
                    Sample.S1 Hc)) in H.
    destruct H as [H|H]; vm_compute in H; by apply H.
Defined.

(** [delete(i)] for an index in range removes the slot [i]: the size drops
    by one, the indices below [i] read as before and every array index
    [j >= i] reads what [j + 1] read before.  The properties at keys that
    are no array indices are not moved. *)
Theorem delete_in_range_shifts_later_snapshots {O V : Type}
    (c : Base.Chain O V) (i : Z) (Hi : Base.has i c = true) :
  Base.size (Base.delete i c) = Base.size c - 1 /\
  (forall j, j < i -> Base.get j (Base.delete i c) = Base.get j c) /\
  (forall j, i <= j -> j + 1 < JsArray.maxLength ->
             Base.get j (Base.delete i c) = Base.get (j + 1) c) /\
  (forall j, JsArray.maxLength <= j -> Base.size c <= j ->
             Base.get j (Base.delete i c) = Base.get j c).
Proof.
  apply BaseFacts.base_has_spec in Hi. unfold Base.size in Hi.
  split; [|split; [|split]].
  - apply JsArrayLaws.length_splice_in_range; lia.
  - intros j Hj. apply JsArrayLaws.get_splice_before; lia.
  - intros j Hj Hmax. apply JsArrayLaws.get_splice_after; lia.
  - intros j Hj Hsize. apply JsArrayLaws.get_splice_property. right. done.
Qed.

Lemma delete_in_range_shifts_later_snapshots_witness :
  Base.has 0 Sample.base3 = true /\
  Base.size (Base.delete 0 Sample.base3) = 2 /\
  Base.get 1 (Base.delete 0 Sample.base3) = Base.get 2 Sample.base3.
Proof.
  destruct (delete_in_range_shifts_later_snapshots Sample.base3 0 eq_refl)
    as (Hsize & _ & Hshift & _).
  assert (H01 : 0 <= 1) by discriminate.
  assert (H2 : 1 + 1 < JsArray.maxLength) by reflexivity.
  exact (conj eq_refl (conj Hsize (Hshift 1 H01 H2))).
Defined.

(** A negative index given to [delete] counts from the end:
    [delete(i)] is [delete(max(size + i, 0))]. *)
Theorem delete_negative_index_counts_from_end {O V : Type}
    (c : Base.Chain O V) (i : Z) (Hi : i < 0) :
  Base.delete i c = Base.delete (Z.max (Base.size c + i) 0) c.
Proof. unfold Base.delete, Base.size. by rewrite JsArrayLaws.splice_negative. Qed.

Lemma delete_negative_index_counts_from_end_witness :
  Base.delete (-2) Sample.base3 = Base.delete 1 Sample.base3 /\
  Base.delete (-7) Sample.base3 = Base.delete 0 Sample.base3.
Proof.
  assert (H2 : -2 < 0) by reflexivity. assert (H7 : -7 < 0) by reflexivity.
  exact (conj (delete_negative_index_counts_from_end Sample.base3 (-2) H2)
              (delete_negative_index_counts_from_end Sample.base3 (-7) H7)).
Defined.




Lemma union_covered {V : Type} (value old : gmap string V) :
  dom old ⊆ dom value -> value ∪ old = value.
Proof.
  intros Hsub. apply map_eq. intros f.
  destruct (value !! f) as [x|] eqn:E.
  - by apply lookup_union_Some_l.
  - rewrite lookup_union_r by done.
    apply not_elem_of_dom. apply not_elem_of_dom in E. set_solver.
Qed.


(** After [clear()], [has(i)] is false for every [i], and [get(i)] and
    [first()] read [undefined] at every array index; the properties at the
    keys that are no array indices, the negative ones and those from
    2^32 - 1 on, are not removed.  A second [clear()] changes nothing. *)
Theorem clear_leaves_no_index_readable {O V : Type}
    (c : Base.Chain O V) (i : Z) :
  Base.has i (Base.clear c) = false /\
  (0 <= i -> i < JsArray.maxLength -> Base.get i (Base.clear c) = None) /\
  Base.first (Base.clear c) = None /\
  (i < 0 -> Base.get i (Base.clear c) = Base.get i c) /\
  (JsArray.maxLength <= i -> Base.size c <= i ->
   Base.get i (Base.clear c) = Base.get i c) /\
  Base.clear (Base.clear c) = Base.clear c.
Proof.
  assert (L : JsArray.length (Base.data (Base.clear c)) = 0) by reflexivity.
  split; [|split; [|split; [|split; [|split]]]].
  - apply BaseFacts.base_has_false. unfold Base.size. lia.
  - intros Hi Hmax. unfold Base.get.
    apply JsArrayFacts.get_out_of_range; [rewrite L; lia | done].
  - unfold Base.first.
    apply JsArrayFacts.get_out_of_range; [rewrite L; lia | reflexivity].
  - intros Hi. unfold Base.get.
    rewrite !JsArrayFacts.get_property by (by left). done.
  - intros Hi Hsize. unfold Base.get, Base.size in *.
    rewrite !JsArrayFacts.get_property
      by (right; unfold JsArray.maxLength in *; lia).
    done.
  - done.
Qed.

(** The cursor is not adjusted by [delete]: when the snapshot under the
    cursor is deleted, on a chain shorter than the maximal array length, the
    cursor keeps its index and [current] becomes what [next] was. *)
Theorem delete_under_cursor_makes_next_current {O V : Type}
    (c : Base.Chain O V) (Hc : Base.has (Base.currentIndex c) c = true)
    (Hmax : Base.size c < JsArray.maxLength) :
  Base.currentIndex (Base.delete (Base.currentIndex c) c) = Base.currentIndex c /\
  Base.current (Base.delete (Base.currentIndex c) c) = Base.next c.
Proof.
  split; [done|]. apply BaseFacts.base_has_spec in Hc. unfold Base.size in *.
  unfold Base.current, Base.next. simpl.
  apply JsArrayLaws.get_splice_after; lia.
Qed.

Lemma delete_under_cursor_makes_next_current_witness :
  Base.has (Base.currentIndex Sample.base3) Sample.base3 = true /\
  Base.size Sample.base3 < JsArray.maxLength /\
  Base.current (Base.delete 0 Sample.base3) = Some Sample.S1.
Proof.
  destruct (delete_under_cursor_makes_next_current Sample.base3 eq_refl eq_refl)
    as [_ H].
  exact (conj eq_refl (conj eq_refl H)).
Defined.

(** The bound is needed: on a chain of the maximal length with the cursor on
    the last snapshot, a property stored at the key 2^32 - 1 is what [next]
    reads, and it is not moved by [delete], after which [current] is
    [undefined]. *)
Lemma delete_under_cursor_at_maximal_length {O V : Type}
    (c : Base.Chain O V) (v : gmap string V) :
  Base.size c = JsArray.maxLength ->
  Base.currentIndex c = Base.lastIndex c ->
  JsArray.props (Base.data c) !! JsArray.maxLength = Some v ->
  Base.next c = Some v /\
  Base.current (Base.delete (Base.currentIndex c) c) = None.
Proof.
  unfold Base.size, Base.lastIndex. intros Hsize Hcur Hprop.
  assert (Hpos : 0 < JsArray.maxLength) by reflexivity. split.
  - unfold Base.next, Base.nextIndex. rewrite Hcur, Hsize.
    replace (JsArray.maxLength - 1 + 1) with JsArray.maxLength by lia.
    rewrite JsArrayFacts.get_property by (right; lia). done.
  - unfold Base.current, Base.delete, Base.withData.
    cbn [Base.data Base.currentIndex]. rewrite Hcur, Hsize.
    apply JsArrayFacts.get_out_of_range; [|lia].
    rewrite JsArrayLaws.length_splice_in_range; lia.
Qed.

(** [update(i, {})] with an object that has no field leaves the chain as it
    is, when a snapshot is stored at [i]. *)
Theorem update_with_empty_object_keeps_snapshot {O V : Type}
    (c : Base.Chain O V) (i : Z) (s : gmap string V)
    (Hs : Base.get i c = Some s) :
  Base.update i ∅ c = c.
Proof.
  unfold Base.update. unfold Base.get in Hs. rewrite Hs. simpl.
  rewrite (left_id_L ∅ (∪)), (right_id_L ∅ (∪)).
  rewrite JsArrayLaws.put_same_value by done. apply BaseFacts.base_withData_same.
Qed.

Lemma update_with_empty_object_keeps_snapshot_witness :
  Base.get 1 Sample.base3 = Some Sample.S1 /\
  Base.update 1 ∅ Sample.base3 = Sample.base3.
Proof.
  exact (conj eq_refl
           (update_with_empty_object_keeps_snapshot Sample.base3 1 Sample.S1
              eq_refl)).
Defined.

(** When [value] has every field that the snapshot stored at [i] has (or
    nothing is stored at [i]), [update(i, value)] does what [set(i, value)]
    does. *)
Theorem update_is_set_when_value_has_all_fields {O V : Type}
    (c : Base.Chain O V) (i : Z) (value : gmap string V)
    (Hcover : dom (default ∅ (Base.get i c)) ⊆ dom value) :
  Base.update i value c = Base.set i value c.
Proof.
  unfold Base.update, Base.set. f_equal. f_equal.
  unfold Base.get in Hcover. destruct (JsArray.get (Base.data c) i) as [old|];
    simpl in *.
  - rewrite (right_id_L ∅ (∪)). by apply union_covered.
  - apply (right_id_L ∅ (∪)).
Qed.

Lemma update_is_set_when_value_has_all_fields_witness :
  Base.update 0 Sample.S2 Sample.base1 = Base.set 0 Sample.S2 Sample.base1.
Proof.
  apply update_is_set_when_value_has_all_fields.
  vm_compute. intros x Hx. exact Hx.
Defined.

(** Two [update]s of the same index merge: the result is that of one
    [update] with the fields of both objects, the later one winning. *)
Theorem update_twice_merges_both_objects {O V : Type}
    (c : Base.Chain O V) (i : Z) (v1 v2 : gmap string V) :
  Base.update i v2 (Base.update i v1 c) = Base.update i (v2 ∪ v1) c.
Proof.
  unfold Base.update at 1. fold (Base.get i (Base.update i v1 c)).
  rewrite BaseFacts.base_get_update.
  unfold Base.update, Base.withData, Base.get. simpl.
  rewrite JsArrayFacts.put_put_same. do 2 f_equal.
  destruct (JsArray.get (Base.data c) i) as [old|]; simpl;
    rewrite ?(right_id_L ∅ (∪)); [by rewrite (assoc_L (∪)) | done].
Qed.

(** A snapshot read by [get(i)] at an array index [i], that is with
    [0 <= i <= 2^32 - 2], is at an index for which [has(i)] is true. *)
Theorem get_of_snapshot_implies_has {O V : Type}
    (c : Base.Chain O V) (i : Z) (s : gmap string V)
    (Hi : 0 <= i) (Hmax : i < JsArray.maxLength)
    (Hs : Base.get i c = Some s) :
  Base.has i c = true.
Proof.
  apply BaseFacts.base_has_spec. split; [done|].
  by eapply JsArrayLaws.get_nonneg_Some.
Qed.

Lemma get_of_snapshot_implies_has_witness : Base.has 2 Sample.base3 = true.
Proof.
  assert (H : 0 <= 2) by discriminate.
  assert (Hmax : 2 < JsArray.maxLength) by reflexivity.
  exact (get_of_snapshot_implies_has Sample.base3 2 Sample.S2 H Hmax eq_refl).
Defined.

Lemma set_at_property_key {O V : Type}
    (c : Base.Chain O V) (i : Z) (value : gmap string V) :
  i < 0 \/ (JsArray.maxLength <= i /\ Base.size c <= i) ->
  Base.size (Base.set i value c) = Base.size c /\
  JsArray.items (Base.data (Base.set i value c)) = JsArray.items (Base.data c) /\
  Base.has i (Base.set i value c) = false /\
  Base.get i (Base.set i value c) = Some value /\
  Base.get i (Base.clear (Base.set i value c)) = Some value.
Proof.
  intros Hkey. pose proof (BaseFacts.base_size_nonneg c) as Hn.
  assert (P : JsArray.put (Base.data c) i value
              = JsArray.mk (JsArray.items (Base.data c))
                  (<[i := value]> (JsArray.props (Base.data c))))
    by (by apply JsArrayFacts.put_property).
  assert (S : Base.size (Base.set i value c) = Base.size c)
    by (unfold Base.size, Base.set; simpl; by rewrite P).
  split; [exact S|]. split; [unfold Base.set; simpl; by rewrite P|].
  split; [apply BaseFacts.base_has_false; rewrite S; lia|].
  split; [apply JsArrayFacts.get_put_same|].
  unfold Base.get, Base.clear, Base.set. simpl. rewrite P.
  rewrite JsArrayFacts.get_property.
  - simpl. by rewrite lookup_insert_eq.
  - unfold JsArray.length. simpl. unfold JsArray.maxLength in *. lia.
Qed.

(** [set] at a negative index writes a property that is no snapshot of the
    sequence: the size and the slots are unchanged and [has] is false there,
    yet [get] reads the value, [clear()] does not remove it, and on an empty
    chain [last()], which reads index [-1], returns what was set at [-1]. *)
Theorem negative_index_write_is_outside_the_sequence {O V : Type}
    (c : Base.Chain O V) (i : Z) (value : gmap string V) (Hi : i < 0) :
  Base.size (Base.set i value c) = Base.size c /\
  JsArray.items (Base.data (Base.set i value c)) = JsArray.items (Base.data c) /\
  Base.has i (Base.set i value c) = false /\
  Base.get i (Base.set i value c) = Some value /\
  Base.get i (Base.clear (Base.set i value c)) = Some value /\
  (i = -1 -> Base.size c = 0 -> Base.last (Base.set i value c) = Some value).
Proof.
  destruct (set_at_property_key c i value (or_introl Hi))
    as (S & E & H & G & C).
  split; [done|]. split; [done|]. split; [done|]. split; [done|].
  split; [done|].
  intros -> Hempty. unfold Base.last, Base.lastIndex.
  fold (Base.size (Base.set (-1) value c)). rewrite S, Hempty. exact G.
Qed.

Lemma negative_index_write_is_outside_the_sequence_witness :
  Base.size (Base.set (-1) Sample.S1 Sample.base0) = 0 /\
  Base.last (Base.set (-1) Sample.S1 Sample.base0) = Some Sample.S1.
Proof.
  assert (H : -1 < 0) by reflexivity.
  destruct (negative_index_write_is_outside_the_sequence Sample.base0 (-1)
              Sample.S1 H) as (Hsize & _ & _ & _ & _ & Hlast).
  exact (conj Hsize (Hlast eq_refl eq_refl)).
Defined.

(** [set] at a key from 2^32 - 1 on, which is no array index, writes a
    property in the same way: the size and the slots are unchanged and [has]
    is false there, yet [get] reads the value and [clear()] does not remove
    it. *)
Theorem large_key_write_is_outside_the_sequence {O V : Type}
    (c : Base.Chain O V) (i : Z) (value : gmap string V)
    (Hi : JsArray.maxLength <= i) (Hsize : Base.size c <= i) :
  Base.size (Base.set i value c) = Base.size c /\
  JsArray.items (Base.data (Base.set i value c)) = JsArray.items (Base.data c) /\
  Base.has i (Base.set i value c) = false /\
  Base.get i (Base.set i value c) = Some value /\
  Base.get i (Base.clear (Base.set i value c)) = Some value.
Proof. apply set_at_property_key. by right. Qed.

Lemma large_key_write_is_outside_the_sequence_witness :
  Base.size (Base.set 4294967295 Sample.S1 Sample.base1) = 1 /\
  Base.has 4294967295 (Base.set 4294967295 Sample.S1 Sample.base1) = false /\
  Base.get 4294967295 (Base.clear (Base.set 4294967295 Sample.S1 Sample.base1))
    = Some Sample.S1.
Proof.
  assert (Hi : JsArray.maxLength <= 4294967295) by (vm_compute; discriminate).
  assert (Hs : Base.size Sample.base1 <= 4294967295) by (vm_compute; discriminate).
  destruct (large_key_write_is_outside_the_sequence Sample.base1 4294967295
              Sample.S1 Hi Hs) as (Hsize & _ & Hhas & _ & Hclear).
  exact (conj Hsize (conj Hhas Hclear)).
Defined.

(** * Properties of histories *)

(** What one call does to each part of the state. *)
Lemma invoke_frame {O V : Type} (m : @Base.Call V) (c : Base.Chain O V)
    (w : World O V) :
  Base.key (Base.invoke m c w).1.2 = Base.key c /\
  Base.object (Base.invoke m c w).1.2 = Base.object c /\
  Base.descriptor (Base.invoke m c w).1.2 = Base.descriptor c /\
  Base.active (Base.invoke m c w).1.2 = Replay.activeAfter [m] (Base.active c) /\
  Base.enabled (Base.invoke m c w).1.2 = Replay.enabledAfter [m] (Base.enabled c) /\
  Base.currentIndex (Base.invoke m c w).1.2
    = Replay.cursorAfter [m] (Base.currentIndex c).
Proof.
  destruct m; try (repeat split; fail).
  simpl. unfold Base.load. run_method.
  destruct (source w _ _ _); repeat split.
Qed.

Lemma invoke_world {O V : Type} (m : @Base.Call V) (c : Base.Chain O V)
    (w : World O V) :
  source (Base.invoke m c w).2 = source w /\
  queries (Base.invoke m c w).2
  = queries w ++ replicate (Replay.loads [m]) (Base.object c, Base.key c).
Proof.
  destruct m; try (split; [done | simpl; by rewrite app_nil_r]).
  simpl. unfold Base.load. run_method.
  destruct (source w _ _ _); by split.
Qed.

Lemma invoke_gapFree {O V : Type} (m : @Base.Call V) (c : Base.Chain O V)
    (w : World O V) :
  Replay.noIndexedWrite m = true ->
  gapFree (Base.data c) -> gapFree (Base.data (Base.invoke m c w).1.2).
Proof.
  intros Hm Hc. destruct m; try discriminate Hm; simpl; try done.
  - by apply JsArrayLaws.gapFree_push.
  - apply JsArrayLaws.gapFree_truncate.
  - by apply JsArrayLaws.gapFree_splice.
  - unfold Base.load. run_method.
    destruct (source w _ _ _); simpl; [by apply JsArrayLaws.gapFree_push | done].
Qed.

(** Over any history of calls, [key], [object] and the stored constructor
    are never reassigned, and each flag and the cursor depend only on the
    calls that assign them: [active] on [activate]/[deactivate], [enabled] on
    [enable]/[disable], [currentIndex] on [setCurrentIndex].  No [add],
    [delete], [clear], [set], [update] or [load], throwing or not, moves the
    cursor or touches a flag. *)
Theorem history_keeps_binding_and_replays_flags {O V : Type}
    (ms : list (@Base.Call V)) (c : Base.Chain O V) (w : World O V) (t : Tally) :
  Base.key (BaseHistory.run ms c w t).1.1 = Base.key c /\
  Base.object (BaseHistory.run ms c w t).1.1 = Base.object c /\
  Base.descriptor (BaseHistory.run ms c w t).1.1 = Base.descriptor c /\
  Base.active (BaseHistory.run ms c w t).1.1
    = Replay.activeAfter ms (Base.active c) /\
  Base.enabled (BaseHistory.run ms c w t).1.1
    = Replay.enabledAfter ms (Base.enabled c) /\
  Base.currentIndex (BaseHistory.run ms c w t).1.1
    = Replay.cursorAfter ms (Base.currentIndex c).
Proof.
  revert c w t. induction ms as [|m ms IH]; intros c w t; [done|].
  simpl. pose proof (invoke_frame m c w) as (Hk & Ho & Hd & Ha & He & Hi).
  destruct (Base.invoke m c w) as [[r c'] w']. simpl in *.
  destruct (IH c' w' (BaseHistory.tally m c r t)) as (IHk & IHo & IHd & IHa & IHe & IHi).
  unfold Replay.activeAfter, Replay.enabledAfter, Replay.cursorAfter in *.
  simpl in *.
  rewrite IHk, IHo, IHd, IHa, IHe, IHi, Hk, Ho, Hd, Ha, He, Hi. done.
Qed.

(** Over any history, the descriptor source is queried once for each
    [load()] call, always for the bound object and key, and by no other
    method. *)
Theorem history_queries_source_once_per_load {O V : Type}
    (ms : list (@Base.Call V)) (c : Base.Chain O V) (w : World O V) (t : Tally) :
  source (BaseHistory.run ms c w t).1.2 = source w /\
  queries (BaseHistory.run ms c w t).1.2
  = queries w ++ replicate (Replay.loads ms) (Base.object c, Base.key c).
Proof.
  revert c w t. induction ms as [|m ms IH]; intros c w t.
  { simpl. by rewrite app_nil_r. }
  simpl. pose proof (invoke_world m c w) as (Hs & Hq).
  pose proof (invoke_frame m c w) as (Hk & Ho & _).
  destruct (Base.invoke m c w) as [[r c'] w']. simpl in Hs, Hq, Hk, Ho.
  destruct (IH c' w' (BaseHistory.tally m c r t)) as (IHs & IHq).
  rewrite IHs, IHq, Hs, Hq, Hk, Ho. split; [done|].
  rewrite <- app_assoc, <- replicate_add. f_equal. f_equal.
  unfold Replay.loads. simpl. destruct (Replay.isLoad m); simpl; lia.
Qed.

(** A chain without holes stays without holes over any history that has no
    [set] and no [update]; every index for which [has] is true then holds a
    snapshot. *)
Theorem history_without_indexed_writes_has_no_holes {O V : Type}
    (ms : list (@Base.Call V)) (c : Base.Chain O V) (w : World O V) (t : Tally)
    (Hms : forallb Replay.noIndexedWrite ms = true)
    (Hc : gapFree (Base.data c)) :
  gapFree (Base.data (BaseHistory.run ms c w t).1.1) /\
  (forall i, Base.has i (BaseHistory.run ms c w t).1.1 = true ->
             is_Some (Base.get i (BaseHistory.run ms c w t).1.1)).
Proof.
  assert (G : gapFree (Base.data (BaseHistory.run ms c w t).1.1)).
  { revert c w t Hc. induction ms as [|m ms IH]; intros c w t Hc; [done|].
    simpl in Hms. apply andb_true_iff in Hms as [Hm Hms]. simpl.
    pose proof (invoke_gapFree m c w Hm Hc) as Hstep.
    destruct (Base.invoke m c w) as [[r c'] w']. by apply IH. }
  split; [done|]. intros i Hi. apply BaseFacts.base_has_spec in Hi.
  apply JsArrayLaws.gapFree_get; [done | lia | unfold Base.size in Hi; lia].
Qed.

Lemma history_without_indexed_writes_has_no_holes_witness :
  forallb Replay.noIndexedWrite Sample.baseCalls = true /\
  gapFree (Base.data Sample.base0) /\
  gapFree (Base.data (BaseHistory.run Sample.baseCalls Sample.base0
                        Sample.worldOnce (mkTally 0 0)).1.1).
Proof.
  assert (Hc : gapFree (Base.data Sample.base0)) by constructor.
  destruct (history_without_indexed_writes_has_no_holes Sample.baseCalls
              Sample.base0 Sample.worldOnce (mkTally 0 0) eq_refl Hc) as [H _].
  exact (conj eq_refl (conj Hc H)).
Defined.



(** * The two classes side by side *)

Lemma invoke_forget {O V : Type} (m : @Minimal.Call V) (c : Base.Chain O V)
    (w : World O V) :
  Minimal.invoke m (Replay.forget c) w
  = (forgetCompletion (Base.invoke (Replay.liftCall m) c w).1.1,
     Replay.forget (Base.invoke (Replay.liftCall m) c w).1.2,
     (Base.invoke (Replay.liftCall m) c w).2).
Proof.
  destruct m; try reflexivity.
  simpl. unfold Minimal.load, Base.load. run_method.
  by destruct (source w _ _ _).
Qed.

Lemma tally_forget {O V : Type} (m : @Minimal.Call V) (c : Base.Chain O V)
    (r : Completion (Base.Chain O V)) (t : Tally) :
  MinimalHistory.tally m (Replay.forget c) (forgetCompletion r) t
  = BaseHistory.tally (Replay.liftCall m) c r t.
Proof. destruct m, r; reflexivity. Qed.

(** The stand-alone [DescriptorChain] and the chain built on
    [DescriptorChainBase] do the same on everything the stand-alone class
    has: over any history of its calls, started from corresponding states,
    they end with the same snapshots, cursor, key and object, make the same
    queries, and complete or throw alike; and the readers agree.  They differ
    in the flags only: the stand-alone class always reports [active] and
    [enabled] as false, while a new base chain has both true. *)
Theorem standalone_chain_matches_base_chain {O V : Type}
    (ms : list (@Minimal.Call V)) (c : Base.Chain O V) (w : World O V)
    (t : Tally) (i : Z) :
  (Replay.forget (BaseHistory.run (map Replay.liftCall ms) c w t).1.1,
   (BaseHistory.run (map Replay.liftCall ms) c w t).1.2,
   (BaseHistory.run (map Replay.liftCall ms) c w t).2)
  = MinimalHistory.run ms (Replay.forget c) w t /\
  (forall (o : O) k ctor,
     Replay.forget (Base.new o k ctor) = @Minimal.new O V o k) /\
  Minimal.get i (Replay.forget c) = Base.get i c /\
  Minimal.has i (Replay.forget c) = Base.has i c /\
  Minimal.size (Replay.forget c) = Base.size c /\
  Minimal.lastIndex (Replay.forget c) = Base.lastIndex c /\
  Minimal.current (Replay.forget c) = Base.current c /\
  Minimal.first (Replay.forget c) = Base.first c /\
  Minimal.last (Replay.forget c) = Base.last c /\
  Minimal.active (Replay.forget c) = false /\
  Minimal.enabled (Replay.forget c) = false /\
  (forall (o : O) k ctor,
     Base.active (@Base.new O V o k ctor) = true /\
     Base.enabled (@Base.new O V o k ctor) = true).
Proof.
  split; [|repeat split].
  revert c w t. induction ms as [|m ms IH]; intros c w t; [done|].
  simpl. rewrite invoke_forget.
  destruct (Base.invoke (Replay.liftCall m) c w) as [[r c'] w']. simpl.
  rewrite tally_forget. apply IH.
Qed.

(** * Reads at the boundaries *)




